(** * Coverage tracker: scanner, feature matcher and coverage aggregation

    A shallow embedding of [tools/coverage_tracker.py].

    Modelling conventions.
    - Python [str] is [string]; the embedding covers ASCII text: the case
      conversions and the classes [\s] and [\w] act on the ASCII range, and a
      character above it is neither a letter, a space nor a word character.
    - [dict[str, _]] is a [gmap string _] where only lookups matter, and an
      association list where the iteration order of the dict decides
      (the rule tables of the matchers, the category grouping of the reports).
    - A [Feature] is mutated in place by the matchers; a matcher is a
      function from the entry before the call to the entry after it, and
      [match_features] runs over a store of entries addressed by position.
    - Python [int] counters are [nat]; a Python [float] is a binary64 float
      of the kernel, with its IEEE 754 operations. *)

From Stdlib Require Import Ascii String ZArith Lia Permutation Floats.
From stdpp Require Import base option list gmap sets strings.


Local Open Scope nat_scope.

(** ** Characters *)

Module Chr.

Definition code (c : ascii) : nat := nat_of_ascii c.

Definition between (lo hi : nat) (c : ascii) : bool :=
  (lo <=? code c) && (code c <=? hi).

(** [[A-Z]] and [[a-z]] *)
Definition is_upper : ascii -> bool := between 65 90.
Definition is_lower : ascii -> bool := between 97 122.
Definition is_digit : ascii -> bool := between 48 57.
Definition is_alpha (c : ascii) : bool := is_upper c || is_lower c.

(** the class [\w] *)
Definition is_word (c : ascii) : bool :=
  is_alpha c || is_digit c || (code c =? 95).

(** the class [\s]: tab, newline, vertical tab, form feed, carriage return,
    the four separators 28..31 and the blank *)
Definition is_space (c : ascii) : bool :=
  between 9 13 c || between 28 31 c || (code c =? 32).

Definition to_lower (c : ascii) : ascii :=
  if is_upper c then ascii_of_nat (code c + 32) else c.

Definition to_upper (c : ascii) : ascii :=
  if is_lower c then ascii_of_nat (code c - 32) else c.

Definition newline : ascii := ascii_of_nat 10.
Definition dquote : ascii := ascii_of_nat 34.

End Chr.

(** ** Strings: the [str] methods the tracker calls *)

Module Str.

Definition of_char (c : ascii) : string := String c EmptyString.

Definition nl : string := of_char Chr.newline.

Definition quoted (s : string) : string :=
  String Chr.dquote (s +:+ of_char Chr.dquote).

Fixpoint map (f : ascii -> ascii) (s : string) : string :=
  match s with
  | EmptyString => EmptyString
  | String c s' => String (f c) (map f s')
  end.

(** [s.lower()] *)
Definition lower : string -> string := map Chr.to_lower.

(** [s.capitalize()]: first character upper-cased, the rest lower-cased *)
Definition capitalize (s : string) : string :=
  match s with
  | EmptyString => EmptyString
  | String c s' => String (Chr.to_upper c) (lower s')
  end.

(** [s.title()]: a letter that follows a letter is lower-cased, any other
    letter is upper-cased *)
Fixpoint title_from (previous_is_cased : bool) (s : string) : string :=
  match s with
  | EmptyString => EmptyString
  | String c s' =>
      String (if previous_is_cased then Chr.to_lower c else Chr.to_upper c)
             (title_from (Chr.is_alpha c) s')
  end.

Definition title : string -> string := title_from false.

(** [s.startswith(p)] *)
Fixpoint startswith (p s : string) : bool :=
  match p, s with
  | EmptyString, _ => true
  | String a p', String b s' => if Ascii.eqb a b then startswith p' s' else false
  | String _ _, EmptyString => false
  end.

(** [needle in hay] *)
Fixpoint contains (needle hay : string) : bool :=
  startswith needle hay ||
  match hay with
  | EmptyString => false
  | String _ hay' => contains needle hay'
  end.

Fixpoint drop (n : nat) (s : string) : string :=
  match n, s with
  | S n', String _ s' => drop n' s'
  | _, _ => s
  end.

Fixpoint take (n : nat) (s : string) : string :=
  match n, s with
  | S n', String c s' => String c (take n' s')
  | _, _ => EmptyString
  end.

(** [s.count(c)] for a one-character [c] *)
Fixpoint count_char (c : ascii) (s : string) : nat :=
  match s with
  | EmptyString => 0
  | String a s' => (if Ascii.eqb a c then 1 else 0) + count_char c s'
  end.

(** [sep.join(parts)] *)
Fixpoint join (sep : string) (parts : list string) : string :=
  match parts with
  | [] => EmptyString
  | [p] => p
  | p :: rest => p +:+ sep +:+ join sep rest
  end.

(** [s.replace(old, new)]: the occurrences of [old] are replaced from the
    left, without overlap; [skip] counts the characters of a matched [old]
    still to be passed over. With an empty [old], [new] is put before every
    character and at the end. *)
Fixpoint replace_from (old new : string) (skip : nat) (s : string) : string :=
  match s with
  | EmptyString => EmptyString
  | String c s' =>
      match skip with
      | S k => replace_from old new k s'
      | O =>
          if startswith old s
          then new +:+ replace_from old new (String.length old - 1) s'
          else String c (replace_from old new 0 s')
      end
  end.

Fixpoint intersperse (new : string) (s : string) : string :=
  match s with
  | EmptyString => new
  | String c s' => new +:+ String c (intersperse new s')
  end.

Definition replace (old new s : string) : string :=
  match old with
  | EmptyString => intersperse new s
  | _ => replace_from old new 0 s
  end.

(** [s.split(sep)] for a one-character [sep]: the pieces between the
    separators, [cur] being the piece under construction. *)
Fixpoint split_acc (sep : ascii) (cur : string) (s : string) : list string :=
  match s with
  | EmptyString => [cur]
  | String c s' =>
      if Ascii.eqb c sep then cur :: split_acc sep EmptyString s'
      else split_acc sep (cur +:+ of_char c) s'
  end.

Definition split (sep : ascii) (s : string) : list string :=
  split_acc sep EmptyString s.

(** [s.split(sep, 1)]: at most one cut, at the first separator *)
Fixpoint split1 (sep : ascii) (s : string) : string * option string :=
  match s with
  | EmptyString => (EmptyString, None)
  | String c s' =>
      if Ascii.eqb c sep then (EmptyString, Some s')
      else let '(h, t) := split1 sep s' in (String c h, t)
  end.

End Str.

Notation "a 'in_str' b" := (Str.contains a b) (at level 70, no associativity).

(** ** Regular expressions: the fragment of [re] the tracker uses

    Literals, one character of a class, a greedy [+] over a class, an optional
    part, sequencing, one capturing group and a one-character look-behind.
    Matching is by backtracking, as in [re]: every construct takes the
    continuation [k] of the rest of the pattern, tries its preferred choice
    first and falls back when the continuation fails. A continuation receives
    the last character consumed so far (for the look-behind), the rest of the
    text and the captured groups. *)

Module Re.

Inductive regex : Type :=
| Lit (s : string)                 (* the characters of [s] *)
| Set_ (cls : ascii -> bool)       (* [[...]]: one character of the class *)
| Plus (cls : ascii -> bool)       (* [\s+], [\w+]: greedy, one or more *)
| Opt (r : regex)                  (* [(?:r)?]: greedy *)
| Seq (r1 r2 : regex)
| Group (r : regex)                (* [(r)] *)
| Behind (cls : ascii -> bool).    (* [(?<=[...])] *)

Section Matching.
Context {R : Type}.

Definition cont : Type := option ascii -> string -> list string -> option R.

Fixpoint lit (l : string) (prev : option ascii) (s : string)
    (k : option ascii -> string -> option R) : option R :=
  match l with
  | EmptyString => k prev s
  | String a l' =>
      match s with
      | String b s' => if Ascii.eqb a b then lit l' (Some b) s' k else None
      | EmptyString => None
      end
  end.

(** the characters of the class after the first one, [last] being the one
    just consumed: the longest run first, then shorter ones *)
Fixpoint plus (cls : ascii -> bool) (last : ascii) (s : string)
    (k : option ascii -> string -> option R) : option R :=
  match s with
  | String c s' =>
      if cls c then
        match plus cls c s' k with
        | Some r => Some r
        | None => k (Some last) s
        end
      else k (Some last) s
  | EmptyString => k (Some last) s
  end.

Fixpoint run (r : regex) (prev : option ascii) (s : string)
    (caps : list string) (k : cont) : option R :=
  match r with
  | Lit l => lit l prev s (fun p rest => k p rest caps)
  | Set_ cls =>
      match s with
      | String c s' => if cls c then k (Some c) s' caps else None
      | EmptyString => None
      end
  | Plus cls =>
      match s with
      | String c s' =>
          if cls c then plus cls c s' (fun p rest => k p rest caps) else None
      | EmptyString => None
      end
  | Opt r1 =>
      match run r1 prev s caps k with
      | Some res => Some res
      | None => k prev s caps
      end
  | Seq r1 r2 =>
      run r1 prev s caps (fun p rest caps1 => run r2 p rest caps1 k)
  | Group r1 =>
      run r1 prev s caps (fun p rest caps1 =>
        k p rest
          (caps1 ++ [Str.take (String.length s - String.length rest) s]))
  | Behind cls =>
      match prev with
      | Some c => if cls c then k prev s caps else None
      | None => None
      end
  end.
End Matching.

(** A match of [r] that starts at the head of [s], the character before it
    being [prev]: the groups and the text after the match. *)
Definition match_at (r : regex) (prev : option ascii) (s : string)
    : option (list string * string) :=
  run r prev s [] (fun _ rest caps => Some (caps, rest)).

(** [re.finditer(r, s)]: the matches from left to right, without overlap,
    each given by its groups. [skip] counts the characters of the last match
    still to be passed over. No pattern of the tracker matches the empty
    string, so every match consumes a character. *)
Fixpoint finditer_from (r : regex) (prev : option ascii) (skip : nat)
    (s : string) : list (list string) :=
  match s with
  | EmptyString => []
  | String c s' =>
      match skip with
      | S n => finditer_from r (Some c) n s'
      | O =>
          match match_at r prev s with
          | Some (caps, rest) =>
              caps :: finditer_from r (Some c)
                        (String.length s - String.length rest - 1) s'
          | None => finditer_from r (Some c) 0 s'
          end
      end
  end.

Definition finditer (r : regex) (s : string) : list (list string) :=
  finditer_from r None 0 s.

(** [m.group(1)] *)
Definition group1 (caps : list string) : string := default EmptyString (head caps).

(** [len(re.findall(r, s))] *)
Definition count (r : regex) (s : string) : nat := length (finditer r s).

(** [re.sub(r, repl, s)], [repl] being a function of the groups *)
Fixpoint sub_from (r : regex) (repl : list string -> string)
    (prev : option ascii) (skip : nat) (s : string) : string :=
  match s with
  | EmptyString => EmptyString
  | String c s' =>
      match skip with
      | S n => sub_from r repl (Some c) n s'
      | O =>
          match match_at r prev s with
          | Some (caps, rest) =>
              repl caps +:+
              sub_from r repl (Some c)
                (String.length s - String.length rest - 1) s'
          | None => String c (sub_from r repl (Some c) 0 s')
          end
      end
  end.

Definition sub (r : regex) (repl : list string -> string) (s : string) : string :=
  sub_from r repl None 0 s.

End Re.

(** The patterns of the tracker. *)

Module Patterns.
Import Re.

Definition ws : regex := Plus Chr.is_space.
Definition word : regex := Plus Chr.is_word.

Fixpoint seq (rs : list regex) : regex :=
  match rs with
  | [] => Lit EmptyString
  | [r] => r
  | r :: rest => Seq r (seq rest)
  end.

(** [#\[(?:tokio::)?test\]] *)
Definition test_marker : regex :=
  seq [Lit "#["; Opt (Lit "tokio::"); Lit "test]"].

(** [pub\s+struct\s+(\w+)] *)
Definition pub_struct : regex :=
  seq [Lit "pub"; ws; Lit "struct"; ws; Group word].

(** [pub\s+enum\s+(\w+)] *)
Definition pub_enum : regex :=
  seq [Lit "pub"; ws; Lit "enum"; ws; Group word].

(** [pub\s+trait\s+(\w+)] *)
Definition pub_trait : regex :=
  seq [Lit "pub"; ws; Lit "trait"; ws; Group word].

(** [pub\s+(?:async\s+)?fn\s+(\w+)] *)
Definition pub_fn : regex :=
  seq [Lit "pub"; ws; Opt (Seq (Lit "async") ws); Lit "fn"; ws; Group word].

(** [impl(?:\s+\w+\s+for)?\s+(\w+)] *)
Definition impl_block : regex :=
  seq [Lit "impl"; Opt (seq [ws; word; ws; Lit "for"]); ws; Group word].

(** [:(\w+)] *)
Definition route_param : regex := Seq (Lit ":") (Group word).

(** [(?<=[a-z])([A-Z])] *)
Definition camel_hump : regex :=
  Seq (Behind Chr.is_lower) (Group (Set_ Chr.is_upper)).

End Patterns.

(** ** Data model *)

Inductive Status : Type := implemented | stubbed | missing.

Global Instance Status_eq_dec : EqDecision Status.
Proof. solve_decision. Defined.

(** [Feature]: an entry of the catalog. *)
Record Feature : Type := mkFeature {
  category : string;
  subcategory : string;
  name : string;
  status : Status;
  rust_file : string;
  rust_symbol : string;
  notes : string;
}.

(** [Feature(category=.., subcategory=.., name=..)]: the other fields take
    their defaults. *)
Definition Feature_new (cat sub n : string) : Feature :=
  mkFeature cat sub n missing "" "" "".

Definition set_status (v : Status) (f : Feature) : Feature :=
  mkFeature (category f) (subcategory f) (name f) v (rust_file f) (rust_symbol f) (notes f).
Definition set_rust_file (v : string) (f : Feature) : Feature :=
  mkFeature (category f) (subcategory f) (name f) (status f) v (rust_symbol f) (notes f).
Definition set_rust_symbol (v : string) (f : Feature) : Feature :=
  mkFeature (category f) (subcategory f) (name f) (status f) (rust_file f) v (notes f).
Definition set_notes (v : string) (f : Feature) : Feature :=
  mkFeature (category f) (subcategory f) (name f) (status f) (rust_file f) (rust_symbol f) v.

(** [CrateInfo]: what the scanner collects for one crate. *)
Record CrateInfo : Type := mkCrateInfo {
  crate_name : string;
  files : list string;
  structs : list string;
  functions : list string;
  enums : list string;
  traits : list string;
  impls : list string;
  test_count : nat;
  line_count : nat;
}.

Definition CrateInfo_new (n : string) : CrateInfo :=
  mkCrateInfo n [] [] [] [] [] [] 0 0.

(** ** Source scanner *)

(** The tree under a root: the parts of the root path, the [*.rs] files in the
    order [rglob] yields them (each by the parts of its path relative to the
    root), and the outcome of reading a file, [None] when the read raises. *)
Record SourceTree : Type := mkSourceTree {
  root_parts : list string;
  rs_files : list (list string);
  read_text : string -> option string;
}.

(** [str(rel)] *)
Definition path_str (parts : list string) : string := Str.join "/" parts.

(** [m.group(1)] of every match of [r] in [content] *)
Definition captures (r : Re.regex) (content : string) : list string :=
  Re.group1 <$> Re.finditer r content.

(** The body of the loop from [info.files.append] on: the path is recorded,
    then the file is read, and a file that cannot be read is left at that. *)
Definition scan_file (content : option string) (rel : string) (info : CrateInfo)
    : CrateInfo :=
  let files' := files info ++ [rel] in
  match content with
  | None =>
      mkCrateInfo (crate_name info) files' (structs info) (functions info)
        (enums info) (traits info) (impls info) (test_count info) (line_count info)
  | Some content =>
      mkCrateInfo (crate_name info) files'
        (structs info ++ captures Patterns.pub_struct content)
        (functions info ++ captures Patterns.pub_fn content)
        (enums info ++ captures Patterns.pub_enum content)
        (traits info ++ captures Patterns.pub_trait content)
        (impls info ++ captures Patterns.impl_block content)
        (test_count info + Re.count Patterns.test_marker content)
        (line_count info + (Str.count_char Chr.newline content + 1))
  end.

(** [rel.parts[0] if rel.parts else "unknown"] *)
Definition crate_of (rel_parts : list string) : string :=
  default "unknown" (head rel_parts).

(** [rs_file.parts] holds the parts of the root too. *)
Definition skipped (t : SourceTree) (rel_parts : list string) : bool :=
  bool_decide ("target" ∈ root_parts t ++ rel_parts).

(** One iteration of the loop over [root.rglob("*.rs")]. *)
Definition scan_step (t : SourceTree) (crates : gmap string CrateInfo)
    (rel_parts : list string) : gmap string CrateInfo :=
  if skipped t rel_parts then crates
  else
    let crate_name := crate_of rel_parts in
    let crates :=
      match crates !! crate_name with
      | None => <[crate_name := CrateInfo_new crate_name]> crates
      | Some _ => crates
      end in
    let info := default (CrateInfo_new crate_name) (crates !! crate_name) in
    let rel := path_str rel_parts in
    <[crate_name := scan_file (read_text t rel) rel info]> crates.

Definition scan_rust_source (t : SourceTree) : gmap string CrateInfo :=
  foldl (scan_step t) ∅ (rs_files t).

(** ** Matching engine *)

(** [all_content.get(crate, "")] *)
Definition get_content (all_content : gmap string string) (crate : string) : string :=
  default "" (all_content !! crate).

(** [d.get(k, dflt)] and the iteration over [d.items()] for the dict literals
    of the matchers, kept in the order they are written. *)
Definition dict_get {V : Type} (d : list (string * V)) (k : string) (dflt : V) : V :=
  match List.find (fun kv => String.eqb (fst kv) k) d with
  | Some kv => snd kv
  | None => dflt
  end.

Definition _param_to_rust (param : string) : string := param.

Definition _event_to_variant (event_name : string) : string :=
  let mapping := [
    ("new-message", "NewMessage");
    ("updated-message", "UpdatedMessage");
    ("typing-indicator", "TypingIndicator");
    ("group-name-change", "ChatUpdate");
    ("chat-read-status-changed", "ChatReadStatusChanged");
    ("participant-removed", "ParticipantRemoved");
    ("participant-added", "ParticipantAdded");
    ("participant-left", "ParticipantLeft");
    ("group-icon-changed", "GroupIconChanged");
    ("incoming-facetime", "IncomingFaceTime");
    ("ft-call-status-changed", "FtCallStatusChanged");
    ("imessage-aliases-removed", "IMessageAliasRemoved");
    ("server-update", "ServerUpdate")
  ] in
  dict_get mapping event_name event_name.

(** *** API endpoints *)

(** [route_keywords], in the order of the dict literal *)
Definition route_keywords : list (string * string) := [
  ("ping", "ping");
  ("server/info", "server_info");
  ("restart/soft", "restart_soft");
  ("restart/hard", "restart_hard");
  ("update/check", "check_update");
  ("update/install", "install_update");
  ("statistics/totals", "totals");
  ("statistics/media", "media_totals");
  ("server/logs", "logs");
  ("chat/count", "chat_count");
  ("chat/query", "query_chats");
  ("chat/new", "create_chat");
  ("message/count", "message_count");
  ("message/query", "query_messages");
  ("message/text", "send_text");
  ("message/multipart", "send_multipart");
  ("message/react", "send_reaction");
  ("message/schedule", "scheduled_message");
  ("attachment/count", "attachment_count");
  ("attachment/upload", "send_attachment");
  ("handle/count", "handle_count");
  ("handle/query", "query_handles");
  ("handle/availability/imessage", "check_imessage");
  ("handle/availability/facetime", "check_facetime");
  ("contact", "contacts");
  ("contact/query", "query_contacts");
  ("contact/upload", "upload_contacts");
  ("fcm/device", "register_fcm");
  ("fcm/client", "get_fcm");
  ("mac/lock", "lock_mac");
  ("mac/imessage/restart", "restart_imessage");
  ("backup/theme", "theme_backup");
  ("backup/settings", "settings_backup");
  ("facetime/answer", "answer_facetime");
  ("facetime/leave", "leave_facetime");
  ("icloud/findmy/devices", "findmy_devices");
  ("icloud/findmy/friends", "findmy_friends");
  ("icloud/account", "icloud_account");
  ("icloud/contact", "icloud_contact");
  ("icloud/account/alias", "icloud_alias")
].

(** [route]: the path without the [/api/v1] prefix *)
Definition route_of (path : string) : string := Str.replace "/api/v1" "" path.

(** [route_rust]: every [:param] turned into [{param}] *)
Definition route_rust_of (route : string) : string :=
  Re.sub Patterns.route_param
    (fun g => "{" +:+ _param_to_rust (Re.group1 g) +:+ "}") route.

(** [significant]: the non-empty segments that are no parameters *)
Definition significant_of (route : string) : list string :=
  List.filter (fun s => negb (String.eqb s "") && negb (Str.startswith ":" s))
    (Str.split "/" route).

(** [significant[-2:]] *)
Definition last2 {A : Type} (l : list A) : list A := drop (length l - 2) l.

(** The condition of the first rule: the translated route, or the quoted
    route, occurs in the text of the API crate. *)
Definition api_rule1 (route api_content : string) : bool :=
  (route_rust_of route in_str api_content) ||
  (Str.quoted route in_str api_content).

(** The condition of the second rule. *)
Definition api_rule2 (route api_content : string) : bool :=
  let significant := significant_of route in
  (2 <=? length significant) &&
  forallb (fun s => s in_str api_content) (last2 significant).

(** The chain of special cases that ends the matcher. A branch whose
    condition holds ends the chain, also when its inner test fails. *)
Definition api_special_cases (feat : Feature) (method route api_content : string)
    : Feature :=
  let hit (file : string) (feat : Feature) : Feature :=
    set_rust_file file (set_status implemented feat) in
  let chats := "bb-api/src/endpoints/chats.rs" in
  let messages := "bb-api/src/endpoints/messages.rs" in
  let attachments := "bb-api/src/endpoints/attachments.rs" in
  let handles := "bb-api/src/endpoints/handles.rs" in
  let icloud := "bb-api/src/endpoints/icloud.rs" in
  let sub := subcategory feat in
  if ("/read" in_str route) && ("mark_chat_read" in_str api_content) then hit chats feat
  else if ("/unread" in_str route) && ("mark_chat_unread" in_str api_content) then hit chats feat
  else if ("/leave" in_str route) && ("leave_chat" in_str api_content) then hit chats feat
  else if ("/participant/add" in_str route) && ("add_participant" in_str api_content) then hit chats feat
  else if ("/participant/remove" in_str route) && ("remove_participant" in_str api_content) then hit chats feat
  else if ("/icon" in_str route) && ("chat_icon" in_str api_content) then hit chats feat
  else if ("embedded-media" in_str route) && ("embedded_media" in_str api_content) then hit messages feat
  else if ("/unsend" in_str route) && ("unsend_message" in_str api_content) then hit messages feat
  else if ("/edit" in_str route) && ("edit_message" in_str api_content) then hit messages feat
  else if ("/notify" in_str route) && ("notify_message" in_str api_content) then hit messages feat
  else if ("/live" in_str route) && ("live_photo" in_str api_content) then hit attachments feat
  else if ("/blurhash" in_str route) && ("blurhash" in_str api_content) then hit attachments feat
  else if ("/download" in_str route) && ("download_attachment" in_str api_content) then hit attachments feat
  else if ("/focus" in_str route) && ("handle_focus" in_str api_content) then hit handles feat
  else if ("findmy/devices/refresh" in_str route) && ("refresh_findmy_devices" in_str api_content) then hit icloud feat
  else if ("findmy/friends/refresh" in_str route) && ("refresh_findmy_friends" in_str api_content) then hit icloud feat
  else if (":guid" in_str route) && String.eqb method "GET" && ("get_chat" in_str api_content) && String.eqb sub "Chat" then hit chats feat
  else if (":guid" in_str route) && String.eqb method "PUT" && ("update_chat" in_str api_content) && String.eqb sub "Chat" then hit chats feat
  else if (":guid" in_str route) && String.eqb method "DELETE" && ("delete_chat" in_str api_content) && String.eqb sub "Chat" then hit chats feat
  else if ("/message" in_str route) && (":guid" in_str route) && String.eqb method "GET" && String.eqb sub "Chat" then
    if "get_chat_messages" in_str api_content then hit chats feat else feat
  else if (":messageGuid" in_str route) && String.eqb method "DELETE" && String.eqb sub "Chat" then
    if "delete_chat_message" in_str api_content then hit chats feat else feat
  else if (":guid" in_str route) && String.eqb method "GET" && String.eqb sub "Message" then
    if "get_message" in_str api_content then hit messages feat else feat
  else if (":guid" in_str route) && String.eqb method "GET" && String.eqb sub "Attachment" then
    if "get_attachment" in_str api_content then hit attachments feat else feat
  else if (":guid" in_str route) && String.eqb method "GET" && String.eqb sub "Handle" then
    if "get_handle" in_str api_content then hit handles feat else feat
  else feat.

Definition _match_api_endpoint (feat : Feature) (all_content : gmap string string)
    : Feature :=
  let ep := name feat in
  let api_content := get_content all_content "bb-api" in
  match Str.split1 " " ep with
  | (_, None) => feat                       (* [len(parts) < 2] *)
  | (method, Some path) =>
      let route := route_of path in
      let endpoint_file :=
        "bb-api/src/endpoints/" +:+ Str.lower (subcategory feat) +:+ ".rs" in
      if api_rule1 route api_content then
        set_rust_file endpoint_file (set_status implemented feat)
      else if api_rule2 route api_content then
        set_rust_file endpoint_file (set_status implemented feat)
      else
        match List.find (fun kv => (fst kv in_str route) && (snd kv in_str api_content))
                route_keywords with
        | Some _ => set_rust_file endpoint_file (set_status implemented feat)
        | None => api_special_cases feat method route api_content
        end
  end.

(** *** Data-base models *)

(** [feat.name.split(".", 1)[1] if "." in feat.name else feat.name] *)
Definition member_of (n : string) : string :=
  match Str.split1 "." n with
  | (_, Some rest) => rest
  | (_, None) => n
  end.

Definition _match_db_model (feat : Feature) (all_structs : gset string)
    (all_content : gmap string string) : Feature :=
  let model_name := subcategory feat in
  let field_or_method := member_of (name feat) in
  let models_content := get_content all_content "bb-models" in
  if bool_decide (model_name ∈ all_structs) || (model_name in_str models_content) then
    if field_or_method in_str models_content then
      let feat := set_status implemented feat in
      let model_file := Str.lower model_name in
      let file_map := [
        ("ThemeStruct", "theme");
        ("ScheduledMessage", "scheduled_message");
        ("AttributedBody", "attributed_body");
        ("PayloadData", "payload_data");
        ("FcmData", "fcm_data")
      ] in
      let fname := dict_get file_map model_name model_file in
      let feat := set_rust_file ("bb-models/src/models/" +:+ fname +:+ ".rs") feat in
      set_rust_symbol (model_name +:+ "::" +:+ field_or_method) feat
    else
      let feat := set_status stubbed feat in
      set_notes ("Struct exists but " +:+ field_or_method +:+ " not found") feat
  else
    set_status missing feat.

(** *** Data-base infrastructure *)

(** [checks], in the order of the dict literal, evaluated on the text *)
Definition db_infra_checks (models_content : string) : list (string * bool) := [
  ("connection pooling", ("r2d2" in_str models_content) || ("Pool" in_str models_content));
  ("wal mode", ("WAL" in_str models_content) || ("wal_mode" in_str models_content));
  ("integrity check", "integrity_check" in_str models_content);
  ("schema creation", "create_tables" in_str models_content);
  ("versioned migrations", "run_migrations" in_str models_content);
  ("transaction support", "transaction" in_str models_content);
  ("database reset", ("reset" in_str models_content) && ("drop_tables" in_str models_content));
  ("database stats", ("DatabaseStats" in_str models_content) || ("stats" in_str models_content));
  ("settings key-value store", ("settings" in_str models_content) && ("key" in_str models_content));
  ("chat-handle join table", "chat_handle_join" in_str models_content)
].

Definition _match_db_infra (feat : Feature) (all_content : gmap string string)
    : Feature :=
  let models_content := get_content all_content "bb-models" in
  let name := Str.lower (name feat) in
  match List.find (fun kv => fst kv in_str name) (db_infra_checks models_content) with
  | Some (_, result) =>
      let feat := set_status (if result then implemented else missing) feat in
      set_rust_file "bb-models/src/db.rs" feat
  | None =>
      (* Fallback *)
      if name in_str Str.lower models_content then set_status implemented feat
      else set_status missing feat
  end.

(** *** Services *)

Definition _match_service (feat : Feature) (all_content : gmap string string)
    : Feature :=
  let svc_content := get_content all_content "bb-services" in
  if String.eqb (subcategory feat) "Flutter-only" then
    let feat := set_status missing feat in
    set_notes "Flutter-specific service, not ported" feat
  else
    let svc_name := subcategory feat in
    let method_name := member_of (name feat) in
    if (svc_name in_str svc_content) && (method_name in_str svc_content) then
      let feat := set_status implemented feat in
      let file_map := [
        ("ChatService", "chat");
        ("MessageService", "message");
        ("ContactService", "contact");
        ("AttachmentService", "attachment");
        ("SyncService", "sync");
        ("SettingsService", "settings");
        ("NotificationService", "notification");
        ("QueueService", "queue");
        ("ServiceRegistry", "registry")
      ] in
      let fname := dict_get file_map svc_name (Str.lower svc_name) in
      let feat := set_rust_file ("bb-services/src/" +:+ fname +:+ ".rs") feat in
      set_rust_symbol (svc_name +:+ "::" +:+ method_name) feat
    else if svc_name in_str svc_content then
      let feat := set_status stubbed feat in
      set_notes ("Service exists but " +:+ method_name +:+ " not found") feat
    else
      set_status missing feat.

(** *** CLI commands *)

(** The three spellings of the command looked for in the CLI crate. *)
Definition cli_cmd_found (cmd cli_content : string) : bool :=
  (Str.replace "-" "_" cmd in_str cli_content) ||
  (Str.capitalize (Str.replace "-" "" cmd) in_str cli_content) ||
  (Str.title cmd in_str cli_content).

Definition _match_cli_command (feat : Feature) (all_content : gmap string string)
    : Feature :=
  let cli_content := get_content all_content "bb-cli" in
  match Str.split " " (name feat) with
  | _ :: group :: cmd :: _ =>              (* [len(parts) >= 3] *)
      if (group in_str cli_content) && cli_cmd_found cmd cli_content then
        let feat := set_status implemented feat in
        set_rust_file ("bb-cli/src/commands/" +:+ group +:+ ".rs") feat
      else if group in_str cli_content then
        let feat := set_status stubbed feat in
        set_notes ("Module exists, checking for " +:+ cmd) feat
      else
        set_status missing feat
  | [_; group] =>                          (* [len(parts) >= 2] *)
      if group in_str cli_content then
        let feat := set_status implemented feat in
        set_rust_file ("bb-cli/src/commands/" +:+ group +:+ ".rs") feat
      else feat
  | _ => feat
  end.

(** *** Core infrastructure *)

(** [keyword_map], in the order of the dict literal: the key looked for in the
    name, then the search term, the text searched and the evidence file. *)
Definition core_keyword_map (core_content socket_content services_content : string)
    : list (string * (string * string * string)) := [
  ("AppConfig", ("AppConfig", core_content, "bb-core/src/config.rs"));
  ("ServerConfig", ("ServerConfig", core_content, "bb-core/src/config.rs"));
  ("DatabaseConfig", ("DatabaseConfig", core_content, "bb-core/src/config.rs"));
  ("LoggingConfig", ("LoggingConfig", core_content, "bb-core/src/config.rs"));
  ("SyncConfig", ("SyncConfig", core_content, "bb-core/src/config.rs"));
  ("NotificationConfig", ("NotificationConfig", core_content, "bb-core/src/config.rs"));
  ("DisplayConfig", ("DisplayConfig", core_content, "bb-core/src/config.rs"));
  ("ConfigHandle", ("ConfigHandle", core_content, "bb-core/src/config.rs"));
  ("BbError", ("BbError", core_content, "bb-core/src/error.rs"));
  ("MessageError", ("MessageError", core_content, "bb-core/src/error.rs"));
  ("init_logging", ("init_logging", core_content, "bb-core/src/logging.rs"));
  ("init_console_logging", ("init_console_logging", core_content, "bb-core/src/logging.rs"));
  ("Platform detection", ("Platform", core_content, "bb-core/src/platform.rs"));
  ("Platform data_dir", ("data_dir", core_content, "bb-core/src/platform.rs"));
  ("Constants", ("reactions", core_content, "bb-core/src/constants.rs"));
  ("AES-256-CBC", ("AesCrypto", socket_content, "bb-socket/src/crypto.rs"));
  ("SocketEventType", ("SocketEventType", socket_content, "bb-socket/src/events.rs"));
  ("EventDispatcher", ("EventDispatcher", socket_content, "bb-socket/src/events.rs"));
  ("ConnectionState", ("ConnectionState", socket_content, "bb-socket/src/events.rs"));
  ("SocketManager", ("SocketManager", socket_content, "bb-socket/src/manager.rs"));
  ("Reconnect with exponential backoff", ("reconnect_delay", socket_content, "bb-socket/src/manager.rs"));
  ("Event deduplication", ("handled_guids", socket_content, "bb-socket/src/manager.rs"));
  ("Service trait", ("trait Service", services_content, "bb-services/src/service.rs"));
  ("ServiceState", ("ServiceState", services_content, "bb-services/src/service.rs"))
].

Definition _match_core (feat : Feature) (all_content : gmap string string)
    : Feature :=
  let core_content := get_content all_content "bb-core" in
  let socket_content := get_content all_content "bb-socket" in
  let services_content := get_content all_content "bb-services" in
  let name := name feat in
  match List.find (fun kv => fst kv in_str name)
          (core_keyword_map core_content socket_content services_content) with
  | Some (_, (search_term, content, file)) =>
      if search_term in_str content then
        let feat := set_status implemented feat in
        let feat := set_rust_file file feat in
        set_rust_symbol search_term feat
      else
        set_status missing feat
  | None =>
      (* Fallback *)
      set_status missing feat
  end.

(** *** Settings *)

(** [re.sub(r"(?<=[a-z])([A-Z])", r"_\1", name).lower()] *)
Definition snake_of (name : string) : string :=
  Str.lower (Re.sub Patterns.camel_hump (fun g => "_" +:+ Re.group1 g) name).

Definition _match_setting (feat : Feature) (all_content : gmap string string)
    : Feature :=
  let core_content := get_content all_content "bb-core" in
  let name := name feat in
  let snake := snake_of name in
  if (snake in_str core_content) || (name in_str core_content) then
    let feat := set_status implemented feat in
    set_rust_file "bb-core/src/config.rs" feat
  else
    let feat := set_status missing feat in
    set_notes "Not in TOML config yet" feat.

(** *** Dispatch on the category *)

(** The lookup indices [match_features] builds. [joined_content] is built
    and passed on by the source too, and read by no matcher. *)
Record Index : Type := mkIndex {
  all_functions : gset string;
  all_structs : gset string;
  all_enums : gset string;
  all_content : gmap string string;
}.

Definition _match_single_feature (feat : Feature) (ix : Index) : Feature :=
  if String.eqb (category feat) "API Endpoints" then
    _match_api_endpoint feat (all_content ix)
  else if String.eqb (category feat) "Socket Events" then
    let event_name := name feat in
    if Str.quoted event_name in_str get_content (all_content ix) "bb-socket" then
      let feat := set_status implemented feat in
      let feat := set_rust_file "bb-socket/src/events.rs" feat in
      set_rust_symbol ("SocketEventType::" +:+ _event_to_variant event_name) feat
    else if String.eqb event_name "chat-read-status-changed"
            || String.eqb event_name "ft-call-status-changed" then
      let feat := set_status missing feat in
      set_notes "Not in event enum yet" feat
    else feat
  else if String.eqb (category feat) "DB Models" then
    _match_db_model feat (all_structs ix) (all_content ix)
  else if String.eqb (category feat) "DB Infrastructure" then
    _match_db_infra feat (all_content ix)
  else if String.eqb (category feat) "Services" then
    _match_service feat (all_content ix)
  else if String.eqb (category feat) "CLI Commands" then
    _match_cli_command feat (all_content ix)
  else if String.eqb (category feat) "Core Infrastructure" then
    _match_core feat (all_content ix)
  else if String.eqb (category feat) "Settings" then
    _match_setting feat (all_content ix)
  else if String.eqb (category feat) "UI Screens" then
    let feat := set_status missing feat in
    set_notes "Tauri UI not yet started" feat
  else feat.

(** *** The loop over the catalog *)

(** The indices: the union of the symbols of all crates, and for every crate
    the texts of its files that can be read, joined by newlines. *)
Definition build_index (crates : gmap string CrateInfo)
    (read : string -> option string) : Index :=
  let infos := snd <$> map_to_list crates in
  mkIndex
    (⋃ ((fun info => list_to_set (functions info)) <$> infos))
    (⋃ ((fun info => list_to_set (structs info)) <$> infos))
    (⋃ ((fun info => list_to_set (enums info)) <$> infos))
    ((fun info => Str.join Str.nl (omap read (files info))) <$> crates).

(** [features] is a list of references: the entries live in a store and the
    list holds their addresses, so that one entry may be listed twice. The
    loop matches the entry at each address in turn, in place. *)
Definition match_at_address (ix : Index) (heap : list Feature) (a : nat)
    : list Feature :=
  match heap !! a with
  | Some feat => <[a := _match_single_feature feat ix]> heap
  | None => heap
  end.

Definition match_features (features : list nat) (crates : gmap string CrateInfo)
    (read : string -> option string) (heap : list Feature) : list Feature :=
  let ix := build_index crates read in
  foldl (match_at_address ix) heap features.

(** ** Coverage aggregation (the figures of the reports) *)

Module Report.

(** A Python number: an [int] or a [float] (IEEE 754 binary64). *)
Inductive number : Type :=
| PyInt (z : Z)
| PyFloat (x : float).

(** [sum(1 for f in features if f.status == st)] *)
Definition count_status (st : Status) (features : list Feature) : nat :=
  length (List.filter (fun f => bool_decide (status f = st)) features).

(** The float of an [int] operand of [/]. The conversion is exact below
    2^53, which the length of a list in memory stays under; [/] on such
    operands is the binary64 division of their floats. *)
Definition to_float (n : nat) : float :=
  PrimFloat.of_uint63 (Uint63.of_Z (Z.of_nat n)).

(** [a / b] on integers: [None] stands for [ZeroDivisionError]. *)
Definition true_div (a b : nat) : option float :=
  match b with
  | O => None
  | S _ => Some (to_float a / to_float b)%float
  end.

(** [(implemented / total * 100) if total else 0]: a float, or the integer 0
    of the [else] branch. *)
Definition pct_of (implemented total : nat) : option number :=
  match total with
  | O => Some (PyInt 0)
  | S _ => q ← true_div implemented total; Some (PyFloat (q * 100)%float)
  end.

(** The integer nearest to ten times the magnitude of a finite float with a
    fractional part, a tie going to the even one; the value of the float is
    taken exactly, as [m * 2^e]. *)
Definition nearest_tenths (m : positive) (e : Z) : Z :=
  let num := (Z.pos m * 10)%Z in
  let den := (2 ^ (- e))%Z in
  let q := (num / den)%Z in
  match (2 * (num mod den) ?= den)%Z with
  | Lt => q
  | Gt => (q + 1)%Z
  | Eq => if Z.even q then q else (q + 1)%Z
  end.

(** [round(x, 1)] on a float: the float nearest to the decimal with one
    place that is nearest to the exact value of [x] (a tie going to the even
    digit); zeros, infinities, NaN and floats without a fractional part are
    returned as they are. The tenths are converted exactly for magnitudes
    below 2^53 / 10, far above any percentage. *)
Definition round1 (x : float) : float :=
  match Prim2SF x with
  | S754_finite s m e =>
      if (0 <=? e)%Z then x
      else
        let r := (PrimFloat.of_uint63 (Uint63.of_Z (nearest_tenths m e)) / 10)%float in
        if s then (- r)%float else r
  | _ => x
  end.

(** [round(implemented / total * 100, 1) if total else 0] *)
Definition rounded_pct_of (implemented total : nat) : option number :=
  match total with
  | O => Some (PyInt 0)
  | S _ => q ← true_div implemented total; Some (PyFloat (round1 (q * 100)%float))
  end.

(** [pct] of [generate_terminal_report] and [generate_markdown_report] *)
Definition overall_pct (features : list Feature) : option number :=
  pct_of (count_status implemented features) (length features).

(** [coverage_pct] of the summary of [generate_json_report] *)
Definition json_coverage_pct (features : list Feature) : option number :=
  rounded_pct_of (count_status implemented features) (length features).

(** [categories.setdefault(f.category, []).append(f)] on a dict kept in
    insertion order *)
Fixpoint setdefault_append (k : string) (f : Feature)
    (d : list (string * list Feature)) : list (string * list Feature) :=
  match d with
  | [] => [(k, [f])]
  | (k', l) :: d' =>
      if String.eqb k' k then (k', l ++ [f]) :: d'
      else (k', l) :: setdefault_append k f d'
  end.

Definition group_by_category (features : list Feature)
    : list (string * list Feature) :=
  foldl (fun d f => setdefault_append (category f) f d) [] features.

(** [cat_pct] for one category of the grouping *)
Definition cat_pct (cat_features : list Feature) : option number :=
  pct_of (count_status implemented cat_features) (length cat_features).

(** The percentages of the per-category breakdown, in dict order; an error
    in one of them ends the report. *)
Definition category_pcts (features : list Feature) : option (list (string * number)) :=
  mapM (fun kv => q ← cat_pct (snd kv); Some (fst kv, q))
       (group_by_category features).

End Report.


(** ** The words of the specification, for comparison with the code *)

(** The character before the current one, if any, is a lowercase letter. *)
Definition follows_lower (prev : option ascii) : bool :=
  match prev with Some p => Chr.is_lower p | None => false end.

(** A separator before each uppercase letter that follows a lowercase letter. *)
Fixpoint insert_separators (prev : option ascii) (s : string) : string :=
  match s with
  | EmptyString => EmptyString
  | String c s' =>
      if follows_lower prev && Chr.is_upper c
      then String "_" (String c (insert_separators (Some c) s'))
      else String c (insert_separators (Some c) s')
  end.

(** The derived variant of a settings name: separators inserted, then
    lower-cased. *)
Definition derived_variant (name : string) : string :=
  Str.lower (insert_separators None name).

(** ** The scanner, crate by crate *)

(** The files of the walk that count for the crate [crate]. *)
Definition crate_files (t : SourceTree) (crate : string) : list (list string) :=
  filter (fun p => skipped t p = false /\ crate_of p = crate) (rs_files t).

(** The texts of those of the files [fs] that can be read. *)
Definition contents_of (t : SourceTree) (fs : list (list string)) : list string :=
  omap (fun p => read_text t (path_str p)) fs.

(** Those of the files [fs] that cannot be read. *)
Definition unreadable (t : SourceTree) (fs : list (list string)) : list (list string) :=
  filter (fun p => read_text t (path_str p) = None) fs.

(** [content.count("\n") + 1] *)
Definition lines_of (content : string) : nat :=
  Str.count_char Chr.newline content + 1.

(** The loop body for a file, from [info.files.append] on. *)
Definition file_step (t : SourceTree) (info : CrateInfo) (p : list string) : CrateInfo :=
  scan_file (read_text t (path_str p)) (path_str p) info.

(** The same tree, its files walked in the order [fs]. *)
Definition reorder (t : SourceTree) (fs : list (list string)) : SourceTree :=
  mkSourceTree (root_parts t) fs (read_text t).

(** Two collections of symbols with the same elements. *)
Definition same_set (l l' : list string) : Prop := forall x, x ∈ l <-> x ∈ l'.

(** Two records with the same counts and the same sets of symbols. *)
Definition same_contents (a b : CrateInfo) : Prop :=
  crate_name a = crate_name b /\
  line_count a = line_count b /\
  test_count a = test_count b /\
  same_set (structs a) (structs b) /\
  same_set (enums a) (enums b) /\
  same_set (traits a) (traits b) /\
  same_set (functions a) (functions b) /\
  same_set (impls a) (impls b).

(** ** What a matcher writes

    A matcher assigns to some of the four result fields of the entry it is
    given and reads none of them: its effect is a set of writes, chosen from
    the category, the subcategory and the name of the entry and from the
    index. *)

Record Writes : Type := mkWrites {
  w_status : option Status;
  w_file : option string;
  w_symbol : option string;
  w_notes : option string;
}.

Definition apply_writes (w : Writes) (f : Feature) : Feature :=
  mkFeature (category f) (subcategory f) (name f)
    (default (status f) (w_status w))
    (default (rust_file f) (w_file w))
    (default (rust_symbol f) (w_symbol w))
    (default (notes f) (w_notes w)).

(** The two entries are the same catalog item. *)
Definition same_key (f g : Feature) : Prop :=
  category f = category g /\ subcategory f = subcategory g /\ name f = name g.

(** The shape of the writes of a matcher: [stubbed] is written only where
    [may_stub] allows it; a symbol is written only together with
    [implemented]; a file only together with [implemented], unless
    [any_file]; a note only together with [stubbed] or [missing]. *)
Definition writes_ok (may_stub any_file : bool) (w : Writes) : bool :=
  match w_status w with Some stubbed => may_stub | _ => true end &&
  match w_symbol w, w_status w with
  | Some _, Some implemented | None, _ => true
  | Some _, _ => false
  end &&
  match w_file w, w_status w with
  | Some _, Some implemented | None, _ => true
  | Some _, _ => any_file
  end &&
  match w_notes w, w_status w with
  | Some _, Some stubbed | Some _, Some missing | None, _ => true
  | Some _, _ => false
  end.

(** The categories with a two-stage check. *)
Definition two_stage (cat : string) : bool :=
  String.eqb cat "DB Models" || String.eqb cat "Services" ||
  String.eqb cat "CLI Commands".

Definition is_db_infra (cat : string) : bool := String.eqb cat "DB Infrastructure".

(** ** Concrete inputs *)

(** An index that holds only crate texts. *)
Definition index_of_texts (texts : list (string * string)) : Index :=
  mkIndex ∅ ∅ ∅ (list_to_map texts).

(** The infrastructure entry on pooling, as the catalog builds it. *)
Definition pooling_entry : Feature :=
  Feature_new "DB Infrastructure" "Core" "Connection pooling (r2d2)".

(** A models crate that names a [Pool] and not the pooling library. *)
Definition ix_pool_only : Index :=
  index_of_texts [("bb-models", "pub struct Pool { size: usize }")].

(** A data-base model entry, as the catalog builds it:
    [Feature(category="DB Models", subcategory=model, name=f"{model}.{fm}")]. *)
Definition db_model_entry (model fm : string) : Feature :=
  Feature_new "DB Models" model (model +:+ "." +:+ fm).

(** A models crate with a [Chat] that has no member yet. *)
Definition ix_chat_only : Index :=
  index_of_texts [("bb-models", "pub struct Chat { }")].

Definition ping_entry (sub : string) : Feature :=
  Feature_new "API Endpoints" sub "GET /api/v1/ping".

Definition ix_ping : Index :=
  index_of_texts [("bb-api", "self.get(/ping).await")].

(** A settings entry and an index without any text. *)
Definition user_name_entry : Feature := Feature_new "Settings" "Display" "userName".

Definition ix_empty : Index := index_of_texts [].

(** The infrastructure entry on the journal mode. *)
Definition wal_entry : Feature := Feature_new "DB Infrastructure" "Core" "WAL mode".

(** A small tree: two files of one crate, the second of which cannot be read,
    one file of another crate, and a build product that is passed over. *)
Definition tree_ex : SourceTree :=
  mkSourceTree ["/"; "work"; "bluebubbles-app-rust"]
    [ ["bb-models"; "src"; "chat.rs"];
      ["bb-models"; "src"; "locked.rs"];
      ["bb-core"; "src"; "config.rs"];
      ["target"; "debug"; "build.rs"] ]
    (fun rel =>
       if String.eqb rel "bb-models/src/chat.rs"
       then Some ("pub struct Chat { }" +:+ Str.nl +:+ "impl Chat { pub fn new() { } }")
       else if String.eqb rel "bb-core/src/config.rs"
       then Some "pub struct AppConfig { pub user_name: String }"
       else None).

(** The same tree walked in another order. *)
Definition tree_ex_files' : list (list string) :=
  [ ["bb-core"; "src"; "config.rs"];
    ["bb-models"; "src"; "locked.rs"];
    ["target"; "debug"; "build.rs"];
    ["bb-models"; "src"; "chat.rs"] ].

(** A store of three entries and a catalog that lists the first one twice. *)
Definition heap_ex : list Feature :=
  [db_model_entry "Chat" "guid"; pooling_entry; user_name_entry].

Definition features_ex : list nat := [0; 2; 0; 1].

(** What the scanner holds for the crate [bb-models] of [tree_ex]. *)
Definition info_ex : CrateInfo :=
  mkCrateInfo "bb-models"
    ["bb-models/src/chat.rs"; "bb-models/src/locked.rs"]
    ["Chat"] ["new"] [] [] ["Chat"] 0 2.

(** Three settings entries, classified against [tree_ex]: the first is
    implemented, the other two are missing. *)
Definition settings_heap_ex : list Feature :=
  [ Feature_new "Settings" "Display" "userName";
    Feature_new "Settings" "Theme" "skin";
    Feature_new "Settings" "Display" "redactedMode" ].

Definition one_of_three : list Feature :=
  match_features [0; 1; 2] (scan_rust_source tree_ex) (read_text tree_ex)
    settings_heap_ex.

(** ** Growing inputs *)

(** The order of the statuses: missing, then stubbed, then implemented. *)
Definition rank (st : Status) : nat :=
  match st with missing => 0 | stubbed => 1 | implemented => 2 end.

(** Whatever is found in the text [T] is found in the text [T']. *)
Definition text_covers (T T' : string) : Prop :=
  forall x, (x in_str T) = true -> (x in_str T') = true.

(** Every struct of [ix] is a struct of [ix'], and whatever is found in the
    text of a crate in [ix] is found in the text of that crate in [ix']. *)
Definition index_covers (ix ix' : Index) : Prop :=
  all_structs ix ⊆ all_structs ix' /\
  forall crate, text_covers (get_content (all_content ix) crate)
                            (get_content (all_content ix') crate).

(** ** The grouping of the reports *)

(** [d] groups the entries [seen]: its keys are distinct, the list of a key
    holds the entries of that category in their order and is not empty, and
    every entry has its category among the keys. *)
Definition grouped (d : list (string * list Feature)) (seen : list Feature) : Prop :=
  NoDup d.*1 /\
  (forall k l, (k, l) ∈ d -> l = filter (fun f => category f = k) seen /\ l <> []) /\
  (forall f, f ∈ seen -> category f ∈ d.*1).

(** ** The totals of [main] *)

(** [sum(len(info.files) for info in crates.values())] *)
Definition total_files (crates : gmap string CrateInfo) : nat :=
  sum_list_with (fun kv => length (files (snd kv))) (map_to_list crates).

(** [sum(info.line_count for info in crates.values())] *)
Definition total_lines (crates : gmap string CrateInfo) : nat :=
  sum_list_with (fun kv => line_count (snd kv)) (map_to_list crates).

(** ** Words for the further properties *)

(** The files of the walk that are not passed over. *)
Definition kept_files (t : SourceTree) : list (list string) :=
  filter (fun p => skipped t p = false) (rs_files t).

(** Every character of [s] is in the class. *)
Fixpoint all_chars (cls : ascii -> bool) (s : string) : bool :=
  match s with
  | EmptyString => true
  | String c s' => cls c && all_chars cls s'
  end.

(** A name: one or more word characters. *)
Definition is_name (w : string) : Prop :=
  w <> "" /\ all_chars Chr.is_word w = true.

(** The pattern has no capturing group. *)
Fixpoint no_group (r : Re.regex) : bool :=
  match r with
  | Re.Lit _ | Re.Set_ _ | Re.Plus _ | Re.Behind _ => true
  | Re.Opt r1 => no_group r1
  | Re.Seq r1 r2 => no_group r1 && no_group r2
  | Re.Group _ => false
  end.

(** The pattern is a sequence without groups followed by the group [(\w+)]. *)
Fixpoint ends_in_name (r : Re.regex) : Prop :=
  match r with
  | Re.Seq r1 r2 => no_group r1 = true /\ ends_in_name r2
  | Re.Group (Re.Plus cls) => cls = Chr.is_word
  | _ => False
  end.

(** No character of [s] is an uppercase letter. *)
Definition no_upper (s : string) : bool :=
  all_chars (fun c => negb (Chr.is_upper c)) s.

(** The elements of a list in the order of their first occurrence. *)
Fixpoint first_seen (l : list string) : list string :=
  match l with
  | [] => []
  | x :: l' => x :: filter (fun y => y <> x) (first_seen l')
  end.

(** A tree whose root lies under a directory named [target]. *)
Definition tree_under_target : SourceTree :=
  mkSourceTree ["/"; "build"; "target"; "checkout"]
    [ ["bb-core"; "src"; "lib.rs"] ]
    (fun _ => Some "pub struct AppConfig;").

(** An entry of the API category whose name has no method. *)
Definition bare_route_entry : Feature :=
  Feature_new "API Endpoints" "Server" "/api/v1/ping".

(** * Properties *)

(** ** The definitions on concrete inputs *)

Example captures_pub_struct :
  captures Patterns.pub_struct "pub struct Chat { } pub  struct Handle; pub structX"
  = ["Chat"; "Handle"].
Proof. reflexivity. Qed.

Example captures_pub_fn :
  captures Patterns.pub_fn "pub fn new() pub async fn send() fn private() pub   fn q_1()"
  = ["new"; "send"; "q_1"].
Proof. reflexivity. Qed.

(** An [impl Trait for Type] block gives the type, a plain block its type; a
    type named like a word that starts with [for] is no trait block. *)
Example captures_impl_block :
  captures Patterns.impl_block "impl Chat { } impl Display for Chat { } impl X fortune simple"
  = ["Chat"; "Chat"; "X"].
Proof. reflexivity. Qed.

Example count_test_marker :
  Re.count Patterns.test_marker "#[test] fn a() #[tokio::test] async fn b() #[tests]" = 2.
Proof. reflexivity. Qed.

Example route_rust_of_params :
  route_rust_of (route_of "/api/v1/chat/:guid/:messageGuid") = "/chat/{guid}/{messageGuid}".
Proof. reflexivity. Qed.

Example significant_of_route :
  significant_of "/chat/:guid/participant/add" = ["chat"; "participant"; "add"].
Proof. reflexivity. Qed.

Example snake_of_examples :
  snake_of "lastIncrementalSyncRowId" = "last_incremental_sync_row_id" /\
  snake_of "use24HrFormat" = "use24hr_format".
Proof. by split. Qed.

Example cli_spellings :
  Str.replace "-" "_" "set-address" = "set_address" /\
  Str.capitalize (Str.replace "-" "" "set-address") = "Setaddress" /\
  Str.title "restart-hard" = "Restart-Hard".
Proof. by repeat split. Qed.

Example scan_tree_ex :
  scan_rust_source tree_ex !! "bb-models" = Some info_ex /\
  scan_rust_source tree_ex !! "target" = None /\
  dom (scan_rust_source tree_ex) = {[ "bb-models"; "bb-core" ]}.
Proof. by vm_compute. Qed.

(** A CLI entry whose group and command occur is implemented; with the group
    alone it is stubbed. *)
Example cli_chats_list :
  status (_match_single_feature (Feature_new "CLI Commands" "chats" "bb chats list")
            (index_of_texts [("bb-cli", "mod chats; fn list() { }")])) = implemented /\
  status (_match_single_feature (Feature_new "CLI Commands" "chats" "bb chats list")
            (index_of_texts [("bb-cli", "mod chats;")])) = stubbed.
Proof. by vm_compute. Qed.

(** ** Facts on strings *)

Section StrFacts.

Lemma app_nil_l_str (s : string) : "" +:+ s = s.
Proof. reflexivity. Qed.

Lemma app_cons_str (c : ascii) (a b : string) :
  String c a +:+ b = String c (a +:+ b).
Proof. reflexivity. Qed.

Lemma app_assoc_str (a b c : string) : (a +:+ b) +:+ c = a +:+ (b +:+ c).
Proof.
  induction a as [|x a IH]; [reflexivity|].
  rewrite !app_cons_str. by rewrite IH.
Qed.

Lemma startswith_app (p q : string) : Str.startswith p (p +:+ q) = true.
Proof.
  induction p as [|a p IH]; [reflexivity|].
  rewrite app_cons_str. cbn. by rewrite Ascii.eqb_refl.
Qed.

Lemma startswith_inv (p s : string) :
  Str.startswith p s = true -> exists q, s = p +:+ q.
Proof.
  revert s. induction p as [|a p IH]; intros s H.
  - by exists s.
  - destruct s as [|b s]; [discriminate|]. cbn in H.
    destruct (Ascii.eqb_spec a b) as [->|]; [|discriminate].
    destruct (IH _ H) as [q ->]. by exists q.
Qed.

(** [needle in hay] holds exactly when [hay] is some text, then [needle], then
    some text. *)
Lemma contains_intro (p n q : string) : (n in_str p +:+ n +:+ q) = true.
Proof.
  induction p as [|a p IH].
  - rewrite app_nil_l_str. destruct (n +:+ q) eqn:E; cbn.
    + rewrite <- E. by rewrite startswith_app.
    + rewrite <- E. by rewrite startswith_app.
  - rewrite app_cons_str. cbn. rewrite IH. apply orb_true_r.
Qed.

Lemma contains_inv (n h : string) :
  (n in_str h) = true -> exists p q, h = p +:+ n +:+ q.
Proof.
  induction h as [|a h IH]; cbn; intros H.
  - rewrite orb_false_r in H. destruct (startswith_inv _ _ H) as [q ->].
    by exists "", q.
  - apply orb_true_iff in H as [H|H].
    + destruct (startswith_inv _ _ H) as [q ->]. by exists "", q.
    + destruct (IH H) as (p & q & ->). by exists (String a p), q.
Qed.

(** A text that holds [a +:+ b] holds [b]. *)
Lemma contains_app_r (a b h : string) :
  (a +:+ b in_str h) = true -> (b in_str h) = true.
Proof.
  intros H. destruct (contains_inv _ _ H) as (p & q & ->).
  rewrite app_assoc_str, <- (app_assoc_str p a). apply contains_intro.
Qed.

Lemma contains_app_r_false (a b h : string) :
  (b in_str h) = false -> (a +:+ b in_str h) = false.
Proof.
  intros H. destruct (a +:+ b in_str h) eqn:E; [|done].
  apply contains_app_r in E. congruence.
Qed.

(** The text after the first separator of [m +:+ sep +:+ rest] ends in [rest]. *)
Lemma split1_app (sep : ascii) (m rest : string) :
  exists x, snd (Str.split1 sep (m +:+ String sep rest)) = Some (x +:+ rest).
Proof.
  induction m as [|c m [x IH]].
  - exists "". rewrite app_nil_l_str. cbn. by rewrite Ascii.eqb_refl.
  - rewrite app_cons_str. cbn. destruct (Ascii.eqb c sep).
    + exists (m +:+ Str.of_char sep). cbn. f_equal.
      unfold Str.of_char. by rewrite app_assoc_str.
    + destruct (Str.split1 sep (m +:+ String sep rest)) as [h t]. cbn in *.
      by exists x.
Qed.

Lemma member_of_app (model fm : string) :
  exists x, member_of (model +:+ "." +:+ fm) = x +:+ fm.
Proof.
  unfold member_of. destruct (split1_app "." model fm) as [x Hx].
  change ("." +:+ fm) with (String "." fm).
  destruct (Str.split1 "." (model +:+ String "." fm)) as [h [t|]]; cbn in Hx.
  - exists x. congruence.
  - discriminate.
Qed.

End StrFacts.

(** ** Settings: the derived variant *)

Section Settings.

Lemma length_cons_sub (c : ascii) (s : string) :
  String.length (String c s) - String.length s = 1.
Proof. cbn. lia. Qed.

(** The pattern [(?<=[a-z])([A-Z])] matches at a position exactly when the
    character there is uppercase and the one before is lowercase; it captures
    that one character. *)
Lemma match_at_camel_hump (prev : option ascii) (c : ascii) (s : string) :
  Re.match_at Patterns.camel_hump prev (String c s) =
  if follows_lower prev && Chr.is_upper c then Some ([Str.of_char c], s) else None.
Proof.
  unfold Re.match_at, Patterns.camel_hump. cbn [Re.run].
  destruct prev as [p|]; cbn [follows_lower]; [|reflexivity].
  destruct (Chr.is_lower p); cbn [andb]; [|reflexivity].
  destruct (Chr.is_upper c); [|reflexivity].
  rewrite length_cons_sub. reflexivity.
Qed.

Lemma sub_camel_hump (prev : option ascii) (s : string) :
  Re.sub_from Patterns.camel_hump (fun g => "_" +:+ Re.group1 g) prev 0 s =
  insert_separators prev s.
Proof.
  revert prev. induction s as [|c s IH]; intros prev; [reflexivity|].
  cbn [Re.sub_from insert_separators]. rewrite match_at_camel_hump.
  destruct (follows_lower prev && Chr.is_upper c).
  - rewrite length_cons_sub. cbn [Nat.sub]. rewrite IH. reflexivity.
  - by rewrite IH.
Qed.

(** The code's snake-case form is the derived variant of the specification. *)
Lemma snake_of_derived_variant (name : string) : snake_of name = derived_variant name.
Proof. unfold snake_of, derived_variant, Re.sub. by rewrite sub_camel_hump. Qed.

End Settings.

(** C6. For a settings entry the matcher derives the lower-case variant with a
    separator before each uppercase letter that follows a lowercase letter
    (["userName"] gives ["user_name"]); the entry is implemented exactly when
    the derived form or the name itself occurs in the text of the
    configuration crate, and is otherwise missing with the note
    ["Not in TOML config yet"]. *)
Theorem C6_setting_matched_by_derived_or_literal_name
    (sub n : string) (ix : Index) :
  let core_content := get_content (all_content ix) "bb-core" in
  let found := (derived_variant n in_str core_content) || (n in_str core_content) in
  let r := _match_single_feature (Feature_new "Settings" sub n) ix in
  snake_of n = derived_variant n /\
  snake_of "userName" = "user_name" /\
  status r = (if found then implemented else missing) /\
  notes r = (if found then "" else "Not in TOML config yet") /\
  rust_file r = (if found then "bb-core/src/config.rs" else "").
Proof.
  cbv zeta. split; [apply snake_of_derived_variant|]. split; [reflexivity|].
  change (_match_single_feature (Feature_new "Settings" sub n) ix)
    with (_match_setting (Feature_new "Settings" sub n) (all_content ix)).
  unfold _match_setting. cbn [name Feature_new].
  rewrite snake_of_derived_variant.
  by destruct (_ || _).
Qed.

(** ** Single matchers *)

(** C1 (as the code has it). For an infrastructure entry whose lower-cased
    name holds ["connection pooling"], the entry is implemented when at least
    one of ["r2d2"] and ["Pool"] occurs in the text of the models crate, and
    missing when neither does. *)
Theorem C1_connection_pooling_needs_one_token
    (sub n : string) (ix : Index)
    (Hname : ("connection pooling" in_str Str.lower n) = true) :
  let models_content := get_content (all_content ix) "bb-models" in
  let r := _match_single_feature (Feature_new "DB Infrastructure" sub n) ix in
  status r =
    if ("r2d2" in_str models_content) || ("Pool" in_str models_content)
    then implemented else missing.
Proof.
  cbv zeta.
  change (_match_single_feature (Feature_new "DB Infrastructure" sub n) ix)
    with (_match_db_infra (Feature_new "DB Infrastructure" sub n) (all_content ix)).
  unfold _match_db_infra, db_infra_checks. cbn [name Feature_new List.find fst].
  rewrite Hname. by destruct (_ || _).
Qed.

Lemma C1_connection_pooling_witness :
  ("connection pooling" in_str Str.lower "Connection pooling (r2d2)") = true /\
  status (_match_single_feature pooling_entry ix_pool_only) = implemented.
Proof.
  split; [reflexivity|].
  exact (C1_connection_pooling_needs_one_token "Core" "Connection pooling (r2d2)"
           ix_pool_only eq_refl).
Defined.

(** The pooling entry is implemented on a text that holds ["Pool"] and does not
    hold ["r2d2"]: the two tokens are not both required. *)
Lemma C1_pool_alone_is_implemented :
  ("connection pooling" in_str Str.lower (name pooling_entry)) = true /\
  ("Pool" in_str get_content (all_content ix_pool_only) "bb-models") = true /\
  ("r2d2" in_str get_content (all_content ix_pool_only) "bb-models") = false /\
  status (_match_single_feature pooling_entry ix_pool_only) = implemented.
Proof. by vm_compute. Qed.

(** C8. For a data-base model entry [Type.member] whose [Type] is among the
    declared structs or occurs in the text of the models crate, and whose
    [member] does not occur in that text, the matcher sets the status stubbed
    and writes a note that names the member. *)
Theorem C8_db_model_without_member_is_stubbed
    (model fm : string) (ix : Index)
    (Htype : model ∈ all_structs ix \/
             (model in_str get_content (all_content ix) "bb-models") = true)
    (Hmember : (fm in_str get_content (all_content ix) "bb-models") = false) :
  let r := _match_single_feature (db_model_entry model fm) ix in
  status r = stubbed /\ (fm in_str notes r) = true /\
  rust_file r = "" /\ rust_symbol r = "".
Proof.
  cbv zeta.
  change (_match_single_feature (db_model_entry model fm) ix)
    with (_match_db_model (db_model_entry model fm) (all_structs ix) (all_content ix)).
  unfold _match_db_model. cbn [subcategory name db_model_entry Feature_new].
  destruct (member_of_app model fm) as [x ->].
  assert (bool_decide (model ∈ all_structs ix)
          || (model in_str get_content (all_content ix) "bb-models") = true) as ->.
  { destruct Htype as [H| ->]; [|apply orb_true_r].
    by rewrite (bool_decide_eq_true_2 _ H). }
  rewrite (contains_app_r_false x fm _ Hmember). cbn.
  split; [done|]. split; [|done].
  rewrite (app_assoc_str x fm), <- (app_assoc_str _ x). apply contains_intro.
Qed.

Lemma C8_chat_guid_witness :
  let r := _match_single_feature (db_model_entry "Chat" "guid") ix_chat_only in
  status r = stubbed /\ (("guid" in_str notes r) = true /\
  rust_file r = "" /\ rust_symbol r = "").
Proof.
  exact (C8_db_model_without_member_is_stubbed "Chat" "guid" ix_chat_only
           (or_intror eq_refl) eq_refl).
Defined.

(** C9. For the entry ["GET /api/v1/ping"], when the text of the API crate
    holds ["/ping"], the first rule of the cascade (the translated route occurs
    in the text) fires and the entry is implemented. *)
Theorem C9_ping_matched_by_first_rule
    (sub : string) (ix : Index)
    (Hping : ("/ping" in_str get_content (all_content ix) "bb-api") = true) :
  let api_content := get_content (all_content ix) "bb-api" in
  let r := _match_single_feature (ping_entry sub) ix in
  route_rust_of (route_of "/api/v1/ping") = "/ping" /\
  api_rule1 (route_of "/api/v1/ping") api_content = true /\
  status r = implemented /\
  rust_file r = "bb-api/src/endpoints/" +:+ Str.lower sub +:+ ".rs".
Proof.
  cbv zeta. split; [reflexivity|].
  assert (api_rule1 (route_of "/api/v1/ping")
            (get_content (all_content ix) "bb-api") = true) as H1.
  { unfold api_rule1.
    change (route_rust_of (route_of "/api/v1/ping")) with "/ping".
    by rewrite Hping. }
  split; [exact H1|].
  change (_match_single_feature (ping_entry sub) ix)
    with (_match_api_endpoint (ping_entry sub) (all_content ix)).
  unfold _match_api_endpoint. cbn [name ping_entry Feature_new subcategory].
  change (Str.split1 " " "GET /api/v1/ping") with ("GET", Some "/api/v1/ping").
  cbv iota beta. rewrite H1. by cbn.
Qed.

Lemma C9_ping_witness :
  let r := _match_single_feature (ping_entry "Server") ix_ping in
  route_rust_of (route_of "/api/v1/ping") = "/ping" /\
  (api_rule1 (route_of "/api/v1/ping") (get_content (all_content ix_ping) "bb-api") = true /\
  (status r = implemented /\
  rust_file r = "bb-api/src/endpoints/" +:+ Str.lower "Server" +:+ ".rs")).
Proof. exact (C9_ping_matched_by_first_rule "Server" ix_ping eq_refl). Defined.

(** ** Every matcher as a set of writes *)

Section MatcherWrites.

Lemma apply_writes_same_key (w : Writes) (f : Feature) : same_key f (apply_writes w f).
Proof. by repeat split. Qed.

(** Writes that leave an entry as other writes left it are absorbed by them. *)
Lemma apply_writes_absorb (w' w : Writes) (f : Feature) :
  apply_writes w' f = apply_writes w f ->
  apply_writes w' (apply_writes w f) = apply_writes w f.
Proof.
  destruct w' as [[?|] [?|] [?|] [?|]], w as [[?|] [?|] [?|] [?|]], f;
    cbn; intros [=]; subst; reflexivity.
Qed.

(** Case analysis on the test at the head of the matcher on the left. *)
Ltac head_case :=
  lazymatch goal with
  | |- exists w, (match ?x with _ => _ end) = _ /\ _ =>
      destruct x eqn:?; cbv beta iota zeta
  end.

(** At a leaf the entry on the left is a record: the fields that differ from
    those of the entry before the call are the writes. *)
Ltac written old new :=
  lazymatch new with
  | old => uconstr:(None)
  | _ => uconstr:(Some new)
  end.

Ltac leaf :=
  cbv beta iota delta
    [set_status set_rust_file set_rust_symbol set_notes
     category subcategory name status rust_file rust_symbol notes];
  lazymatch goal with
  | |- exists w, mkFeature _ _ _ ?st ?rf ?rs ?nt =
                 apply_writes w (mkFeature _ _ _ ?st0 ?rf0 ?rs0 ?nt0) /\ _ =>
      let a := written st0 st in
      let b := written rf0 rf in
      let c := written rs0 rs in
      let d := written nt0 nt in
      exists (mkWrites a b c d); repeat split; reflexivity
  end.

Ltac same_item f g :=
  destruct f as [c s n st rf rs nt], g as [c' s' n' st' rf' rs' nt'];
  intros (Hc & Hs & Hn); cbn in Hc, Hs, Hn; subst c' s' n'.

Lemma api_special_cases_writes (f g : Feature) (method route api_content : string) :
  same_key f g ->
  exists w, api_special_cases f method route api_content = apply_writes w f /\
            api_special_cases g method route api_content = apply_writes w g /\
            writes_ok false false w = true.
Proof.
  same_item f g. unfold api_special_cases. cbv beta zeta.
  cbn [subcategory]. repeat head_case; leaf.
Qed.

Lemma _match_api_endpoint_writes (f g : Feature) (content : gmap string string) :
  same_key f g ->
  exists w, _match_api_endpoint f content = apply_writes w f /\
            _match_api_endpoint g content = apply_writes w g /\
            writes_ok false false w = true.
Proof.
  intros Hkey. unfold _match_api_endpoint.
  destruct Hkey as (Hc & Hs & Hn). rewrite <- Hn, <- Hs.
  destruct (Str.split1 " " (name f)) as [method [path|]].
  - cbv beta iota zeta.
    repeat head_case;
      try (destruct f, g; cbn in Hc, Hs, Hn; subst; leaf).
    by apply api_special_cases_writes.
  - destruct f, g; cbn in Hc, Hs, Hn; subst. leaf.
Qed.

Lemma _match_db_model_writes (f g : Feature) (structs : gset string)
    (content : gmap string string) :
  same_key f g ->
  exists w, _match_db_model f structs content = apply_writes w f /\
            _match_db_model g structs content = apply_writes w g /\
            writes_ok true false w = true.
Proof.
  same_item f g. unfold _match_db_model. cbv beta zeta. cbn [subcategory name].
  repeat head_case; leaf.
Qed.

Lemma _match_db_infra_writes (f g : Feature) (content : gmap string string) :
  same_key f g ->
  exists w, _match_db_infra f content = apply_writes w f /\
            _match_db_infra g content = apply_writes w g /\
            writes_ok false true w = true.
Proof.
  same_item f g. unfold _match_db_infra. cbv beta zeta. cbn [name].
  repeat head_case;
    try (match goal with b : bool |- _ => destruct b end); leaf.
Qed.

Lemma _match_service_writes (f g : Feature) (content : gmap string string) :
  same_key f g ->
  exists w, _match_service f content = apply_writes w f /\
            _match_service g content = apply_writes w g /\
            writes_ok true false w = true.
Proof.
  same_item f g. unfold _match_service. cbv beta zeta. cbn [subcategory name].
  repeat head_case; leaf.
Qed.

Lemma _match_cli_command_writes (f g : Feature) (content : gmap string string) :
  same_key f g ->
  exists w, _match_cli_command f content = apply_writes w f /\
            _match_cli_command g content = apply_writes w g /\
            writes_ok true false w = true.
Proof.
  same_item f g. unfold _match_cli_command. cbv beta zeta. cbn [name].
  repeat head_case; leaf.
Qed.

Lemma _match_core_writes (f g : Feature) (content : gmap string string) :
  same_key f g ->
  exists w, _match_core f content = apply_writes w f /\
            _match_core g content = apply_writes w g /\
            writes_ok false false w = true.
Proof.
  same_item f g. unfold _match_core. cbv beta zeta. cbn [name].
  repeat head_case; leaf.
Qed.

Lemma _match_setting_writes (f g : Feature) (content : gmap string string) :
  same_key f g ->
  exists w, _match_setting f content = apply_writes w f /\
            _match_setting g content = apply_writes w g /\
            writes_ok false false w = true.
Proof.
  same_item f g. unfold _match_setting. cbv beta zeta. cbn [name].
  repeat head_case; leaf.
Qed.

(** The matcher of an entry acts as writes that depend on the catalog item
    only, of the shape its category allows. *)
Lemma _match_single_feature_writes (f g : Feature) (ix : Index) :
  same_key f g ->
  exists w, _match_single_feature f ix = apply_writes w f /\
            _match_single_feature g ix = apply_writes w g /\
            writes_ok (two_stage (category f)) (is_db_infra (category f)) w = true.
Proof.
  intros Hkey. pose proof Hkey as (Hc & Hs & Hn).
  unfold _match_single_feature. rewrite <- Hc, <- Hn.
  destruct (String.eqb_spec (category f) "API Endpoints") as [->|_];
    [by apply _match_api_endpoint_writes|].
  destruct (String.eqb_spec (category f) "Socket Events") as [E|_].
  { rewrite E. clear Hkey. destruct f, g; cbn in Hc, Hs, Hn, E; subst.
    cbv beta zeta. repeat head_case; leaf. }
  destruct (String.eqb_spec (category f) "DB Models") as [->|_];
    [by apply _match_db_model_writes|].
  destruct (String.eqb_spec (category f) "DB Infrastructure") as [->|_];
    [by apply _match_db_infra_writes|].
  destruct (String.eqb_spec (category f) "Services") as [->|_];
    [by apply _match_service_writes|].
  destruct (String.eqb_spec (category f) "CLI Commands") as [->|_];
    [by apply _match_cli_command_writes|].
  destruct (String.eqb_spec (category f) "Core Infrastructure") as [->|_];
    [by apply _match_core_writes|].
  destruct (String.eqb_spec (category f) "Settings") as [->|_];
    [by apply _match_setting_writes|].
  destruct (String.eqb_spec (category f) "UI Screens") as [E|_].
  { rewrite E. clear Hkey. destruct f, g; cbn in Hc, Hs, Hn, E; subst. leaf. }
  clear Hkey. destruct f, g; cbn in Hc, Hs, Hn; subst. leaf.
Qed.

(** Matching an entry that was matched already changes nothing. *)
Lemma _match_single_feature_idempotent (f : Feature) (ix : Index) :
  _match_single_feature (_match_single_feature f ix) ix = _match_single_feature f ix.
Proof.
  destruct (_match_single_feature_writes f f ix) as (w & Hf & _ & _); [done|].
  destruct (_match_single_feature_writes f (apply_writes w f) ix)
    as (w' & Hf' & Hg' & _); [apply apply_writes_same_key|].
  rewrite Hf, Hg'. apply apply_writes_absorb. congruence.
Qed.

End MatcherWrites.

(** ** All categories *)

(** C2 (as the code has it). For an entry created with the default fields,
    after matching: the evidence symbol is set only when the status is
    implemented; the evidence location is set only when the status is
    implemented, for every category other than the data-base infrastructure;
    so a missing entry of such a category has an empty location and an empty
    symbol. The note is set only when the status is stubbed or missing. *)
Theorem C2_evidence_fields_follow_status (cat sub n : string) (ix : Index) :
  let r := _match_single_feature (Feature_new cat sub n) ix in
  (rust_symbol r <> "" -> status r = implemented) /\
  (rust_file r <> "" -> status r = implemented \/ cat = "DB Infrastructure") /\
  (notes r <> "" -> status r = stubbed \/ status r = missing) /\
  (status r = missing ->
     rust_symbol r = "" /\ (cat <> "DB Infrastructure" -> rust_file r = "")).
Proof.
  cbv zeta.
  destruct (_match_single_feature_writes (Feature_new cat sub n)
              (Feature_new cat sub n) ix) as (w & -> & _ & Hok); [done|].
  cbn [category Feature_new] in Hok. unfold is_db_infra in Hok.
  destruct (String.eqb_spec cat "DB Infrastructure") as [Hcat|Hcat];
    destruct (two_stage cat);
    destruct w as [[[]|] [?|] [?|] [?|]]; cbn in Hok |- *;
    try discriminate Hok; repeat split; intros; try done; auto.
Qed.

(** A settings entry that is missing carries a note: the note is not kept for
    implemented and stubbed entries. *)
Lemma C2_missing_setting_has_note :
  status (_match_single_feature user_name_entry ix_empty) = missing /\
  notes (_match_single_feature user_name_entry ix_empty) = "Not in TOML config yet" /\
  notes (_match_single_feature user_name_entry ix_empty) <> "".
Proof. by vm_compute. Qed.

(** An infrastructure entry found in the table of checks gets its evidence
    location whatever the outcome of the check. *)
Lemma missing_db_infra_has_location :
  status (_match_single_feature wal_entry ix_empty) = missing /\
  rust_file (_match_single_feature wal_entry ix_empty) = "bb-models/src/db.rs".
Proof. by vm_compute. Qed.

(** C3. Whatever the inputs, an entry that was not stubbed before matching is
    stubbed after it only if its category is one of the data-base models, the
    services and the CLI commands. *)
Theorem C3_stubbed_only_with_two_stage_check (feat : Feature) (ix : Index)
    (Hbefore : status feat <> stubbed)
    (Hafter : status (_match_single_feature feat ix) = stubbed) :
  category feat = "DB Models" \/ category feat = "Services" \/
  category feat = "CLI Commands".
Proof.
  destruct (_match_single_feature_writes feat feat ix) as (w & Hw & _ & Hok);
    [done|].
  rewrite Hw in Hafter. cbn in Hafter.
  assert (two_stage (category feat) = true) as Htwo.
  { destruct w as [[[]|] ? ? ?]; cbn in Hafter, Hok; try done.
    by destruct (two_stage (category feat)). }
  unfold two_stage in Htwo.
  apply orb_true_iff in Htwo as [Htwo|Htwo];
    [apply orb_true_iff in Htwo as [Htwo|Htwo]|];
    apply String.eqb_eq in Htwo; auto.
Qed.

Lemma C3_stubbed_witness :
  category (db_model_entry "Chat" "guid") = "DB Models" \/
  category (db_model_entry "Chat" "guid") = "Services" \/
  category (db_model_entry "Chat" "guid") = "CLI Commands".
Proof.
  apply (C3_stubbed_only_with_two_stage_check (db_model_entry "Chat" "guid")
           ix_chat_only).
  - discriminate.
  - reflexivity.
Defined.

(** ** The loop over the catalog *)

Section Loop.

Context (ix : Index).

Lemma match_at_address_same (heap : list Feature) (a : nat) (feat : Feature) :
  heap !! a = Some feat ->
  match_at_address ix heap a !! a = Some (_match_single_feature feat ix).
Proof.
  intros H. unfold match_at_address. rewrite H.
  apply list_lookup_insert_eq. by eapply lookup_lt_Some.
Qed.

Lemma match_at_address_other (heap : list Feature) (a b : nat) :
  a <> b -> match_at_address ix heap b !! a = heap !! a.
Proof.
  intros H. unfold match_at_address. destruct (heap !! b); [|done].
  by apply list_lookup_insert_ne.
Qed.

(** After the loop an entry that is listed holds the outcome of its own
    matcher, however often it is listed and whatever else is. *)
Lemma loop_lookup (features : list nat) (heap : list Feature) (a : nat)
    (feat : Feature) :
  heap !! a = Some feat ->
  foldl (match_at_address ix) heap features !! a =
  Some (if bool_decide (a ∈ features) then _match_single_feature feat ix else feat).
Proof.
  revert heap feat. induction features as [|b features IH]; intros heap feat H.
  - done.
  - cbn [foldl]. destruct (decide (a = b)) as [<-|Hne].
    + rewrite (IH _ _ (match_at_address_same _ _ _ H)).
      rewrite _match_single_feature_idempotent.
      rewrite (bool_decide_eq_true_2 (a ∈ a :: features)) by apply list_elem_of_here.
      by destruct (bool_decide _).
    + rewrite (IH _ feat) by by rewrite match_at_address_other.
      apply f_equal. rewrite (bool_decide_ext (a ∈ b :: features) (a ∈ features));
        [done|].
      rewrite elem_of_cons. split; [intros [?|?]; [congruence|done]|auto].
Qed.

End Loop.

(** C5. Matching is a function of the entry and of the inputs: matching an
    entry again changes nothing, and after [match_features] an entry of the
    catalog holds the outcome of its own matcher, whichever other entries the
    catalog lists, in whichever order and however often. *)
Theorem C5_outcome_depends_on_entry_alone
    (features : list nat) (crates : gmap string CrateInfo)
    (read : string -> option string) (heap : list Feature)
    (a : nat) (feat : Feature)
    (Hentry : heap !! a = Some feat) :
  let ix := build_index crates read in
  let r := _match_single_feature feat ix in
  _match_single_feature r ix = r /\
  match_features features crates read heap !! a =
    Some (if bool_decide (a ∈ features) then r else feat).
Proof.
  cbv zeta. split; [apply _match_single_feature_idempotent|].
  unfold match_features. by apply loop_lookup.
Qed.

Lemma C5_outcome_witness :
  let ix := build_index (scan_rust_source tree_ex) (read_text tree_ex) in
  let r := _match_single_feature (db_model_entry "Chat" "guid") ix in
  _match_single_feature r ix = r /\
  match_features features_ex (scan_rust_source tree_ex) (read_text tree_ex) heap_ex !! 0 =
    Some (if bool_decide (0 ∈ features_ex) then r else db_model_entry "Chat" "guid").
Proof.
  exact (C5_outcome_depends_on_entry_alone features_ex (scan_rust_source tree_ex)
           (read_text tree_ex) heap_ex 0 (db_model_entry "Chat" "guid") eq_refl).
Defined.

(** ** Source scanner *)

Section Scanner.

Context (t : SourceTree).

(** The record of a crate after a run of the loop: the files of the crate
    folded, in their order, into the record the crate had before. *)
Lemma scan_fold_lookup (l : list (list string)) (m : gmap string CrateInfo)
    (crate : string) :
  foldl (scan_step t) m l !! crate =
  let fs := filter (fun p => skipped t p = false /\ crate_of p = crate) l in
  match m !! crate with
  | Some info => Some (foldl (file_step t) info fs)
  | None =>
      match fs with
      | [] => None
      | _ :: _ => Some (foldl (file_step t) (CrateInfo_new crate) fs)
      end
  end.
Proof.
  revert m. induction l as [|p l IH]; intros m; cbn [foldl].
  { cbn. by destruct (m !! crate). }
  rewrite IH. cbv zeta. unfold scan_step.
  destruct (skipped t p) eqn:Hskip.
  { rewrite filter_cons_False; [done|]. intros [? _]. congruence. }
  destruct (decide (crate_of p = crate)) as [<-|Hne].
  - rewrite filter_cons_True by done.
    destruct (m !! crate_of p) as [info|] eqn:E.
    + rewrite E, lookup_insert_eq. reflexivity.
    + rewrite !lookup_insert_eq. reflexivity.
  - rewrite filter_cons_False by (intros [_ ?]; done).
    destruct (m !! crate_of p) as [info|] eqn:E.
    + by rewrite lookup_insert_ne.
    + by rewrite !lookup_insert_ne.
Qed.

Lemma scan_lookup (crate : string) :
  scan_rust_source t !! crate =
  match crate_files t crate with
  | [] => None
  | _ :: _ => Some (foldl (file_step t) (CrateInfo_new crate) (crate_files t crate))
  end.
Proof.
  unfold scan_rust_source. rewrite scan_fold_lookup, lookup_empty. reflexivity.
Qed.

(** The loop over the files of one crate, in closed form: every file is
    listed, and the counts and symbols are those of the texts read. *)
Lemma foldl_file_step (fs : list (list string)) (info : CrateInfo) :
  foldl (file_step t) info fs =
  let cs := contents_of t fs in
  mkCrateInfo (crate_name info)
    (files info ++ (path_str <$> fs))
    (structs info ++ (cs ≫= captures Patterns.pub_struct))
    (functions info ++ (cs ≫= captures Patterns.pub_fn))
    (enums info ++ (cs ≫= captures Patterns.pub_enum))
    (traits info ++ (cs ≫= captures Patterns.pub_trait))
    (impls info ++ (cs ≫= captures Patterns.impl_block))
    (test_count info + sum_list_with (Re.count Patterns.test_marker) cs)
    (line_count info + sum_list_with lines_of cs).
Proof.
  revert info. induction fs as [|p fs IH]; intros info.
  { destruct info. cbn. by rewrite !app_nil_r, !Nat.add_0_r. }
  cbn [foldl]. rewrite IH. cbv zeta. unfold contents_of. cbn [omap list_omap].
  unfold file_step at 1 2 3 4 5 6 7 8 9. unfold scan_file.
  fold (contents_of t fs).
  destruct (read_text t (path_str p)) as [c|]; cbn.
  - rewrite <- !app_assoc. f_equal; unfold lines_of; lia.
  - rewrite <- !app_assoc. reflexivity.
Qed.

Lemma length_contents_unreadable (fs : list (list string)) :
  length fs = length (contents_of t fs) + length (unreadable t fs).
Proof.
  unfold contents_of, unreadable. induction fs as [|p fs IH]; [done|].
  cbn [omap list_omap]. destruct (read_text t (path_str p)) eqn:E.
  - rewrite filter_cons_False by congruence. cbn. lia.
  - rewrite filter_cons_True by done. cbn. lia.
Qed.

End Scanner.

(** C10. A file that cannot be read is still listed in the record of its
    crate, and adds nothing to the counts and to the symbols: the files of a
    record are all the files of the crate, the counts and symbols are those of
    the files that were read, and the list of files is longer than the number
    of files read by the number of files that could not be read. *)
Theorem C10_unreadable_file_listed_without_contribution
    (t : SourceTree) (crate : string) (info : CrateInfo)
    (Hscan : scan_rust_source t !! crate = Some info) :
  let listed := crate_files t crate in
  let cs := contents_of t listed in
  files info = path_str <$> listed /\
  line_count info = sum_list_with lines_of cs /\
  test_count info = sum_list_with (Re.count Patterns.test_marker) cs /\
  structs info = cs ≫= captures Patterns.pub_struct /\
  functions info = cs ≫= captures Patterns.pub_fn /\
  enums info = cs ≫= captures Patterns.pub_enum /\
  traits info = cs ≫= captures Patterns.pub_trait /\
  impls info = cs ≫= captures Patterns.impl_block /\
  length (files info) = length cs + length (unreadable t listed).
Proof.
  cbv zeta. rewrite scan_lookup in Hscan.
  assert (info = foldl (file_step t) (CrateInfo_new crate) (crate_files t crate))
    as ->.
  { destruct (crate_files t crate); [discriminate|]. by injection Hscan. }
  rewrite foldl_file_step. cbn.
  repeat split; try reflexivity.
  rewrite length_fmap. apply length_contents_unreadable.
Qed.

Lemma C10_locked_file_witness :
  scan_rust_source tree_ex !! "bb-models" = Some info_ex /\
  length (files info_ex) =
    length (contents_of tree_ex (crate_files tree_ex "bb-models")) +
    length (unreadable tree_ex (crate_files tree_ex "bb-models")) /\
  length (contents_of tree_ex (crate_files tree_ex "bb-models")) < length (files info_ex).
Proof.
  assert (scan_rust_source tree_ex !! "bb-models" = Some info_ex) as H
    by (vm_compute; reflexivity).
  split; [exact H|]. split.
  - apply (C10_unreadable_file_listed_without_contribution tree_ex "bb-models" info_ex H).
  - vm_compute. lia.
Defined.

(** C4. Scanning a tree whose files are walked in another order gives, for
    every crate, a record with the same line count, the same test count and
    the same sets of structs, enums, traits, functions and implementation
    blocks; a crate has a record in one scan exactly when it has one in the
    other. *)
Theorem C4_scan_independent_of_walk_order
    (t : SourceTree) (fs' : list (list string))
    (Hperm : rs_files t ≡ₚ fs') (crate : string) :
  option_Forall2 same_contents
    (scan_rust_source t !! crate)
    (scan_rust_source (reorder t fs') !! crate).
Proof.
  rewrite !scan_lookup.
  assert (crate_files t crate ≡ₚ crate_files (reorder t fs') crate) as Hfiles.
  { unfold crate_files. cbn [rs_files reorder].
    change (fun p => skipped (reorder t fs') p = false /\ crate_of p = crate)
      with (fun p => skipped t p = false /\ crate_of p = crate).
    by rewrite Hperm. }
  destruct (crate_files t crate) as [|p fs] eqn:E1;
    destruct (crate_files (reorder t fs') crate) as [|p' fs2] eqn:E2.
  - constructor.
  - by apply Permutation_nil_l in Hfiles.
  - by apply Permutation_nil_r in Hfiles.
  - constructor. rewrite !foldl_file_step. cbv zeta.
    change (contents_of (reorder t fs') (p' :: fs2)) with (contents_of t (p' :: fs2)).
    assert (contents_of t (p :: fs) ≡ₚ contents_of t (p' :: fs2)) as Hcs.
    { unfold contents_of. by rewrite Hfiles. }
    unfold same_contents, same_set. cbn.
    repeat split; try (by rewrite Hcs); intros Hx; by rewrite ?Hcs in *.
Qed.

Lemma C4_walk_order_witness :
  option_Forall2 same_contents
    (scan_rust_source tree_ex !! "bb-models")
    (scan_rust_source (reorder tree_ex tree_ex_files') !! "bb-models").
Proof.
  apply (C4_scan_independent_of_walk_order tree_ex tree_ex_files').
  unfold tree_ex, tree_ex_files'. cbn [rs_files].
  apply (Permutation_cons_app [_; _; _] []). cbn [app].
  apply Permutation_swap.
Defined.

(** ** Coverage aggregation *)

Section Aggregation.

Import Report.

Lemma pct_of_total (implemented total : nat) :
  pct_of implemented total =
  Some (if total =? 0 then PyInt 0
        else PyFloat (to_float implemented / to_float total * 100)%float).
Proof. by destruct total. Qed.

Lemma rounded_pct_of_total (implemented total : nat) :
  rounded_pct_of implemented total =
  Some (if total =? 0 then PyInt 0
        else PyFloat (round1 (to_float implemented / to_float total * 100)%float)).
Proof. by destruct total. Qed.

(** The keys after [setdefault]: a new key goes to the end. *)
Lemma setdefault_append_keys (k : string) (f : Feature)
    (d : list (string * list Feature)) :
  (setdefault_append k f d).*1 = if bool_decide (k ∈ d.*1) then d.*1 else d.*1 ++ [k].
Proof.
  induction d as [|[k' l] d IH]; [done|]. cbn [setdefault_append].
  destruct (String.eqb_spec k' k) as [->|Hne].
  - cbn. by rewrite bool_decide_eq_true_2 by apply list_elem_of_here.
  - cbn [fmap list_fmap fst]. rewrite IH.
    rewrite (bool_decide_ext (k ∈ k' :: d.*1) (k ∈ d.*1)).
    + by destruct (bool_decide (k ∈ d.*1)).
    + rewrite elem_of_cons. split; [intros [?|?]; [congruence|done]|auto].
Qed.

(** The lists after [append]: the list of the key gets the entry at its end,
    the other lists stay. *)
Lemma setdefault_append_elem (k : string) (f : Feature)
    (d : list (string * list Feature)) (k2 : string) (l2 : list Feature) :
  NoDup d.*1 ->
  (k2, l2) ∈ setdefault_append k f d ->
  (k2 <> k /\ (k2, l2) ∈ d) \/
  (k2 = k /\ exists l, (k, l) ∈ d /\ l2 = l ++ [f]) \/
  (k2 = k /\ (k ∉ d.*1) /\ l2 = [f]).
Proof.
  induction d as [|[k' l] d IH]; intros Hnd Hin.
  - apply list_elem_of_singleton in Hin as [= -> ->].
    right; right. split; [done|]. split; [apply not_elem_of_nil|done].
  - cbn [setdefault_append] in Hin. apply NoDup_cons in Hnd as [Hk' Hnd].
    destruct (String.eqb_spec k' k) as [->|Hne].
    + apply elem_of_cons in Hin as [[= -> ->]|Hin].
      * right; left. split; [done|]. exists l. split; [apply list_elem_of_here|done].
      * left. split; [|by apply list_elem_of_further].
        intros ->. apply Hk'. apply list_elem_of_fmap. by exists (k, l2).
    + apply elem_of_cons in Hin as [[= -> ->]|Hin].
      * left. split; [done|apply list_elem_of_here].
      * destruct (IH Hnd Hin) as [[? ?]|[[-> (l0 & ? & ->)]|(-> & ? & ->)]].
        -- left. split; [done|by apply list_elem_of_further].
        -- right; left. split; [done|]. exists l0.
           split; [by apply list_elem_of_further|done].
        -- right; right. split; [done|]. split; [|done].
           rewrite fmap_cons, not_elem_of_cons. cbn. split; [congruence|done].
Qed.

Lemma filter_category_snoc (k : string) (seen : list Feature) (f : Feature) :
  filter (fun g => category g = k) (seen ++ [f]) =
  filter (fun g => category g = k) seen ++ (if decide (category f = k) then [f] else []).
Proof.
  rewrite filter_app. reflexivity.
Qed.

Lemma setdefault_append_grouped (f : Feature) (d : list (string * list Feature))
    (seen : list Feature) :
  grouped d seen -> grouped (setdefault_append (category f) f d) (seen ++ [f]).
Proof.
  intros (Hnd & Hlists & Hkeys). split; [|split].
  - rewrite setdefault_append_keys. case_bool_decide as Hk; [done|].
    apply NoDup_app. split; [done|]. split; [|apply NoDup_singleton].
    intros x Hx ->%list_elem_of_singleton. done.
  - intros k l Hin. rewrite filter_category_snoc.
    destruct (setdefault_append_elem _ _ _ _ _ Hnd Hin)
      as [[Hne Hd]|[[-> (l0 & Hd & ->)]|(-> & Hnew & ->)]].
    + destruct (Hlists _ _ Hd) as [<- ?]. rewrite decide_False by congruence.
      by rewrite app_nil_r.
    + destruct (Hlists _ _ Hd) as [<- ?]. rewrite decide_True by done.
      split; [done|]. by destruct l0.
    + rewrite decide_True by done. split; [|done].
      destruct (filter (fun g => category g = category f) seen) as [|g ?] eqn:E;
        [done|].
      assert (g ∈ filter (fun g => category g = category f) seen) as Hg
        by (rewrite E; apply list_elem_of_here).
      apply list_elem_of_filter in Hg as [Hcat Hg]. apply Hkeys in Hg.
      by rewrite Hcat in Hg.
  - intros g Hg. rewrite setdefault_append_keys.
    apply elem_of_app in Hg as [Hg| ->%list_elem_of_singleton].
    + apply Hkeys in Hg. case_bool_decide; [done|]. apply elem_of_app. by left.
    + case_bool_decide; [done|]. apply elem_of_app. right. apply list_elem_of_here.
Qed.

(** The grouping of the reports: one list per category, which holds the
    entries of that category in their order in the catalog. *)
Lemma group_by_category_grouped (features : list Feature) :
  grouped (group_by_category features) features.
Proof.
  unfold group_by_category.
  assert (forall d seen, grouped d seen ->
            grouped (foldl (fun d f => setdefault_append (category f) f d) d features)
                    (seen ++ features)) as H.
  { induction features as [|f features IH]; intros d seen Hd.
    - by rewrite app_nil_r.
    - cbn [foldl]. rewrite (cons_middle f seen features), app_assoc.
      by apply IH, setdefault_append_grouped. }
  apply (H [] []). split; [constructor|].
  split; [intros k l Hin|intros f Hin]; by apply elem_of_nil in Hin.
Qed.

End Aggregation.

(** C7 (as the code has it). The coverage percentage of the reports is the
    float [implemented / total * 100] when there are entries and [0] when
    there are none, overall and for every category of the grouping, a
    category being grouped with exactly its entries; in the summary of the
    JSON report the figure is rounded to one decimal place. No division by
    zero is ever evaluated: every percentage is computed, and no category of
    the grouping is empty. *)
Theorem C7_coverage_percentage (features : list Feature) :
  let pct (fs : list Feature) : float :=
    (Report.to_float (Report.count_status implemented fs) /
     Report.to_float (length fs) * 100)%float in
  Report.overall_pct features =
    Some (if length features =? 0 then Report.PyInt 0
          else Report.PyFloat (pct features)) /\
  Report.overall_pct [] = Some (Report.PyInt 0) /\
  Report.json_coverage_pct features =
    Some (if length features =? 0 then Report.PyInt 0
          else Report.PyFloat (Report.round1 (pct features))) /\
  (forall cat g, (cat, g) ∈ Report.group_by_category features ->
     g = filter (fun f => category f = cat) features /\
     0 < length g /\
     Report.cat_pct g = Some (Report.PyFloat (pct g))) /\
  is_Some (Report.category_pcts features).
Proof.
  cbv zeta. split; [apply pct_of_total|]. split; [reflexivity|].
  split; [apply rounded_pct_of_total|].
  destruct (group_by_category_grouped features) as (_ & Hlists & _).
  split.
  - intros cat g Hin. destruct (Hlists _ _ Hin) as [Hg Hne].
    split; [done|]. unfold Report.cat_pct. rewrite pct_of_total.
    destruct g; [done|]. split; [cbn; lia|done].
  - unfold Report.category_pcts. apply mapM_is_Some, Forall_forall.
    intros [k g] _. cbn. unfold Report.cat_pct. by rewrite pct_of_total.
Qed.

(** With one entry out of three implemented the summary of the JSON report
    holds 33.3, the float nearest to [333 / 10], which is not the float
    [1 / 3 * 100] of the other reports. *)
Lemma C7_json_percentage_is_rounded :
  length one_of_three = 3 /\
  Report.count_status implemented one_of_three = 1 /\
  Report.json_coverage_pct one_of_three = Some (Report.PyFloat (333 / 10)%float) /\
  Report.overall_pct one_of_three = Some (Report.PyFloat (1 / 3 * 100)%float) /\
  PrimFloat.eqb (333 / 10) (1 / 3 * 100) = false.
Proof. repeat split; by vm_compute. Qed.

(** The floats of the reports are those of the interpreter: 7 of 25 gives
    28.000000000000004 and not 28; 23 of 80 gives 28.749999999999996, which
    rounds to 28.7; 49 of 80 gives 61.25000000000001, which rounds to 61.3;
    a tie is decided on the exact value, so 1 of 16, which is 6.25, rounds to
    6.2. *)
Example float_percentages :
  Report.pct_of 7 25 = Some (Report.PyFloat 0x1.c000000000001p+4%float) /\
  Report.pct_of 23 80 = Some (Report.PyFloat 0x1.cbfffffffffffp+4%float) /\
  Report.rounded_pct_of 23 80 = Some (Report.PyFloat (287 / 10)%float) /\
  Report.rounded_pct_of 49 80 = Some (Report.PyFloat (613 / 10)%float) /\
  Report.rounded_pct_of 1 16 = Some (Report.PyFloat (62 / 10)%float) /\
  Report.rounded_pct_of 7 25 = Some (Report.PyFloat 28%float).
Proof. repeat split; by vm_compute. Qed.

(** * Further properties *)

(** ** Matching against a larger index *)

Section Growing.

Lemma map_app_str (f : ascii -> ascii) (a b : string) :
  Str.map f (a +:+ b) = Str.map f a +:+ Str.map f b.
Proof.
  induction a as [|c a IH]; [reflexivity|].
  rewrite app_cons_str. cbn. by rewrite IH.
Qed.

Lemma map_app_inv_str (f : ascii -> ascii) (a' b' s : string) :
  Str.map f s = a' +:+ b' ->
  exists a b, s = a +:+ b /\ Str.map f a = a' /\ Str.map f b = b'.
Proof.
  revert s. induction a' as [|c a' IH]; intros s H.
  - by exists "", s.
  - destruct s as [|x s]; [discriminate|].
    rewrite app_cons_str in H. cbn in H. injection H as Hx Hs.
    destruct (IH _ Hs) as (a & b & -> & Ha & Hb).
    exists (String x a), b. cbn. by rewrite Hx, Ha.
Qed.

(** Lower-casing keeps the cover. *)
Lemma text_covers_lower (T T' : string) :
  text_covers T T' -> text_covers (Str.lower T) (Str.lower T').
Proof.
  intros Hc x Hx. unfold Str.lower in *.
  destruct (contains_inv _ _ Hx) as (p' & q' & Hsplit).
  destruct (map_app_inv_str _ _ _ _ Hsplit) as (p & r & -> & Hp & Hr).
  destruct (map_app_inv_str _ _ _ _ Hr) as (y & q & -> & Hy & Hq).
  destruct (contains_inv _ _ (Hc y (contains_intro p y q))) as (a & b & ->).
  rewrite !map_app_str, Hy. apply contains_intro.
Qed.

Lemma find_covers {A : Type} (p p' : A -> bool) (l : list A) (x : A) :
  (forall y, p y = true -> p' y = true) ->
  List.find p l = Some x -> exists z, List.find p' l = Some z.
Proof.
  intros Hp. induction l as [|y l IH]; cbn; [discriminate|].
  destruct (p y) eqn:E.
  - rewrite (Hp _ E). eauto.
  - destruct (p' y); eauto.
Qed.

End Growing.

Section Monotone.

Context (structs structs' : gset string) (Hsub : structs ⊆ structs').
Context (content content' : gmap string string).
Context (Hcov : forall crate, text_covers (get_content content crate)
                                          (get_content content' crate)).

Lemma text_covers_nil (T : string) : text_covers "" T.
Proof.
  intros x Hx. destruct x as [|c x]; [by destruct T|].
  cbn in Hx. discriminate.
Qed.

Lemma rank_implemented (st : Status) : 2 <= rank st -> st = implemented.
Proof. destruct st; cbn; [done|lia|lia]. Qed.

Lemma rank_le_hit (x : Status) (file : string) (f : Feature) :
  rank x <= rank (status (set_rust_file file (set_status implemented f))).
Proof. by destruct x; cbn; lia. Qed.

Lemma forallb_covers (l : list string) (T T' : string) :
  text_covers T T' ->
  forallb (fun s => s in_str T) l = true -> forallb (fun s => s in_str T') l = true.
Proof.
  intros Hc. induction l as [|x l IH]; cbn; [done|].
  intros [Hx Hl]%andb_true_iff. by rewrite (Hc _ Hx), IH.
Qed.

Lemma api_rule1_covers (route T T' : string) :
  text_covers T T' -> api_rule1 route T = true -> api_rule1 route T' = true.
Proof.
  unfold api_rule1. intros Hc [H|H]%orb_true_iff; rewrite (Hc _ H);
    [reflexivity|apply orb_true_r].
Qed.

Lemma api_rule2_covers (route T T' : string) :
  text_covers T T' -> api_rule2 route T = true -> api_rule2 route T' = true.
Proof.
  unfold api_rule2. intros Hc [H1 H2]%andb_true_iff.
  by rewrite H1, (forallb_covers _ _ _ Hc H2).
Qed.

Lemma route_keyword_covers (route T T' : string) (x : string * string) :
  text_covers T T' ->
  List.find (fun kv => (fst kv in_str route) && (snd kv in_str T)) route_keywords = Some x ->
  List.find (fun kv => (fst kv in_str route) && (snd kv in_str T')) route_keywords <> None.
Proof.
  intros Hc H. eapply find_covers in H as [z ->]; [done|].
  intros y [H1 H2]%andb_true_iff. cbn beta. by rewrite H1, (Hc _ H2).
Qed.

Ltac fields :=
  cbn [status set_status set_rust_file set_rust_symbol set_notes
       category subcategory name rust_file rust_symbol notes rank].

(** The test at the head of a nest of tests. *)
Ltac head_test x k :=
  lazymatch x with
  | match ?y with _ => _ end => head_test y k
  | _ => k x
  end.

Ltac left_case :=
  lazymatch goal with
  | |- rank (status (match ?x with _ => _ end)) <= _ =>
      head_test x ltac:(fun y => destruct y eqn:?); cbv beta iota zeta
  end.

Ltac right_case :=
  lazymatch goal with
  | |- _ <= rank (status (match ?x with _ => _ end)) =>
      head_test x ltac:(fun y => destruct y eqn:?); cbv beta iota zeta
  end.

(** The tests that hold, split into their parts. *)
Ltac atoms :=
  repeat match goal with
  | H : _ && _ = true |- _ => apply andb_true_iff in H as [? ?]
  | H : _ || _ = true |- _ => apply orb_true_iff in H as [?|?]
  | H : _ || _ = false |- _ => apply orb_false_iff in H as [? ?]
  end.

(** What is found in the smaller index is found in the larger one. *)
Ltac grow :=
  repeat match goal with
  | H : bool_decide (?x ∈ structs) = true |- _ =>
      apply bool_decide_eq_true in H; apply Hsub in H;
      apply (bool_decide_eq_true_2 (x ∈ structs')) in H
  | H : (?x in_str get_content content ?k) = true |- _ =>
      apply (Hcov k x) in H
  | H : (?x in_str Str.lower (get_content content ?k)) = true |- _ =>
      apply (text_covers_lower _ _ (Hcov k) x) in H
  end.

Ltac close :=
  fields;
  repeat match goal with
  | |- context [if ?b then _ else _] => destruct b eqn:?
  end;
  fields;
  first [ lia
        | match goal with x : Status |- _ => destruct x; cbn [rank]; lia end
        | cbn [andb orb] in *; atoms; grow;
          repeat match goal with
          | H : ?a = true |- _ => rewrite H in *; clear H
          end;
          cbn [andb orb] in *; congruence ].

Lemma _match_setting_mono (f : Feature) :
  rank (status (_match_setting f content)) <= rank (status (_match_setting f content')).
Proof.
  destruct f as [c s n st rf rs nt]. unfold _match_setting.
  cbv beta zeta. cbn [name].
  repeat left_case; repeat right_case; close.
Qed.

Lemma _match_service_mono (f : Feature) :
  rank (status (_match_service f content)) <= rank (status (_match_service f content')).
Proof.
  destruct f as [c s n st rf rs nt]. unfold _match_service.
  cbv beta zeta. cbn [name subcategory].
  repeat left_case; repeat right_case; close.
Qed.

Lemma _match_cli_command_mono (f : Feature) :
  rank (status (_match_cli_command f content)) <=
  rank (status (_match_cli_command f content')).
Proof.
  destruct f as [c s n st rf rs nt]. unfold _match_cli_command, cli_cmd_found.
  cbv beta zeta. cbn [name subcategory].
  repeat left_case; repeat right_case; close.
Qed.

Lemma _match_core_mono (f : Feature) :
  rank (status (_match_core f content)) <= rank (status (_match_core f content')).
Proof.
  destruct f as [c s n st rf rs nt]. unfold _match_core, core_keyword_map.
  cbv beta zeta. cbn [name List.find fst].
  repeat left_case; repeat right_case; close.
Qed.

Lemma _match_db_infra_mono (f : Feature) :
  rank (status (_match_db_infra f content)) <= rank (status (_match_db_infra f content')).
Proof.
  destruct f as [c s n st rf rs nt]. unfold _match_db_infra, db_infra_checks.
  cbv beta zeta. cbn [name List.find fst].
  repeat left_case; repeat right_case; close.
Qed.

Lemma _match_db_model_mono (f : Feature) :
  rank (status (_match_db_model f structs content)) <=
  rank (status (_match_db_model f structs' content')).
Proof.
  destruct f as [c s n st rf rs nt]. unfold _match_db_model.
  cbv beta zeta. cbn [name subcategory].
  repeat left_case; repeat right_case; close.
Qed.

(** One step down two copies of a chain of tests, the right one on the larger
    text: where the right test fails the left one fails too. *)
Ltac contradict_test Ea Eb :=
  cbn [andb orb] in Ea; atoms; grow;
  repeat match goal with
  | H : ?a = true |- _ => rewrite H in Eb; clear H
  end;
  cbn [andb orb] in Eb; discriminate Eb.

Ltac lock_step :=
  lazymatch goal with
  | |- rank (status (if ?a then _ else _)) <= rank (status (if ?b then _ else _)) =>
      let Eb := fresh "Eb" in
      destruct b eqn:Eb; cbv beta iota;
      [ lazymatch goal with
        | |- _ <= rank (status (if _ then _ else _)) => clear Eb
        | |- _ => apply rank_le_hit
        end
      | lazymatch goal with
        | |- rank (status (if ?a' then _ else _)) <= _ =>
            tryif constr_eq a a' then
              let Ea := fresh "Ea" in
              destruct a eqn:Ea; cbv beta iota;
              [ exfalso; contradict_test Ea Eb | clear Ea Eb ]
            else clear Eb
        | |- _ => clear Eb
        end ]
  end.

Lemma api_special_cases_mono (f : Feature) (method route : string) :
  rank (status (api_special_cases f method route (get_content content "bb-api"))) <=
  rank (status (api_special_cases f method route (get_content content' "bb-api"))).
Proof.
  unfold api_special_cases. cbv beta zeta.
  repeat lock_step; reflexivity.
Qed.

Lemma _match_api_endpoint_mono (f : Feature) :
  rank (status (_match_api_endpoint f content)) <=
  rank (status (_match_api_endpoint f content')).
Proof.
  unfold _match_api_endpoint. cbv beta zeta.
  destruct (Str.split1 " " (name f)) as [method [path|]]; [|reflexivity].
  pose proof (Hcov "bb-api") as Hapi.
  set (T := get_content content "bb-api") in *.
  set (T' := get_content content' "bb-api") in *.
  destruct (api_rule1 (route_of path) T') eqn:E1'; [apply rank_le_hit|].
  destruct (api_rule1 (route_of path) T) eqn:E1.
  { apply (api_rule1_covers _ _ _ Hapi) in E1. rewrite E1 in E1'. discriminate. }
  destruct (api_rule2 (route_of path) T') eqn:E2'; [apply rank_le_hit|].
  destruct (api_rule2 (route_of path) T) eqn:E2.
  { apply (api_rule2_covers _ _ _ Hapi) in E2. rewrite E2 in E2'. discriminate. }
  destruct (List.find (fun kv => (fst kv in_str route_of path) && (snd kv in_str T'))
              route_keywords) as [kv'|] eqn:E3'; [apply rank_le_hit|].
  destruct (List.find (fun kv => (fst kv in_str route_of path) && (snd kv in_str T))
              route_keywords) as [kv|] eqn:E3.
  { apply (route_keyword_covers _ _ _ _ Hapi) in E3. by rewrite E3' in E3. }
  apply api_special_cases_mono.
Qed.

End Monotone.


Lemma index_covers_empty (ix : Index) : index_covers ix_empty ix.
Proof.
  split; [apply empty_subseteq|]. intros crate.
  unfold get_content, ix_empty, index_of_texts. cbn [all_content list_to_map foldr].
  rewrite lookup_empty. apply text_covers_nil.
Qed.


(** ** The scanner as a whole *)

Section ScannerTotals.

Lemma scan_step_skipped (t : SourceTree) (m : gmap string CrateInfo) (p : list string) :
  skipped t p = true -> scan_step t m p = m.
Proof. intros H. unfold scan_step. by rewrite H. Qed.

(** The record of a crate is the fold of its files into a new record. *)
Lemma scan_record_closed_form (t : SourceTree) (crate : string) (info : CrateInfo) :
  scan_rust_source t !! crate = Some info ->
  info = foldl (file_step t) (CrateInfo_new crate) (crate_files t crate).
Proof.
  rewrite scan_lookup. destruct (crate_files t crate); [discriminate|].
  by intros [= <-].
Qed.

(** A sum over the records, for a measure [g], when one record is added or
    replaced. *)
Lemma sum_records_insert_new (g : CrateInfo -> nat) (m : gmap string CrateInfo)
    (k : string) (v : CrateInfo) :
  m !! k = None ->
  sum_list_with (fun kv => g (snd kv)) (map_to_list (<[k:=v]> m)) =
  g v + sum_list_with (fun kv => g (snd kv)) (map_to_list m).
Proof. intros H. by rewrite (map_to_list_insert m k v H). Qed.

Lemma sum_records_insert_old (g : CrateInfo -> nat) (m : gmap string CrateInfo)
    (k : string) (v old : CrateInfo) :
  m !! k = Some old ->
  sum_list_with (fun kv => g (snd kv)) (map_to_list (<[k:=v]> m)) + g old =
  sum_list_with (fun kv => g (snd kv)) (map_to_list m) + g v.
Proof.
  intros H.
  rewrite <- (insert_delete_id m k old H) at 2.
  rewrite <- (insert_delete_eq m k v).
  rewrite !sum_records_insert_new by apply lookup_delete_eq. lia.
Qed.

(** One iteration of the loop adds to such a sum what the file adds to its
    record. *)
Lemma sum_records_scan_step (g : CrateInfo -> nat) (d : option string -> nat)
    (t : SourceTree) (m : gmap string CrateInfo) (p : list string) :
  (forall c rel info, g (scan_file c rel info) = g info + d c) ->
  (forall n, g (CrateInfo_new n) = 0) ->
  sum_list_with (fun kv => g (snd kv)) (map_to_list (scan_step t m p)) =
  sum_list_with (fun kv => g (snd kv)) (map_to_list m) +
  (if skipped t p then 0 else d (read_text t (path_str p))).
Proof.
  intros Hg Hnew. unfold scan_step. destruct (skipped t p); [lia|].
  destruct (m !! crate_of p) as [old|] eqn:E; cbv beta iota zeta.
  - rewrite E. cbn [default from_option id].
    pose proof (sum_records_insert_old g m (crate_of p)
      (scan_file (read_text t (path_str p)) (path_str p) old) old E) as H.
    rewrite Hg in H. lia.
  - rewrite lookup_insert_eq. cbn [default from_option id].
    rewrite insert_insert_eq, sum_records_insert_new by done.
    rewrite Hg, Hnew. lia.
Qed.

Lemma sum_records_scan (g : CrateInfo -> nat) (d : option string -> nat)
    (t : SourceTree) :
  (forall c rel info, g (scan_file c rel info) = g info + d c) ->
  (forall n, g (CrateInfo_new n) = 0) ->
  sum_list_with (fun kv => g (snd kv)) (map_to_list (scan_rust_source t)) =
  sum_list_with (fun p => d (read_text t (path_str p))) (kept_files t).
Proof.
  intros Hg Hnew. unfold scan_rust_source, kept_files.
  induction (rs_files t) as [|p l IH] using rev_ind; [done|].
  rewrite foldl_app, filter_app, sum_list_with_app. cbn [foldl].
  rewrite (sum_records_scan_step g d) by done. rewrite IH. f_equal.
  destruct (skipped t p) eqn:E.
  - by rewrite filter_cons_False by congruence.
  - rewrite filter_cons_True by done. cbn. lia.
Qed.

End ScannerTotals.

(** X2. When the path of the root has a part named [target], every file is
    passed over and the scan gives no record at all. *)
Theorem scan_of_root_under_target (t : SourceTree)
    (Hroot : "target" ∈ root_parts t) :
  scan_rust_source t = ∅.
Proof.
  unfold scan_rust_source.
  assert (forall p, skipped t p = true) as Hskip.
  { intros p. unfold skipped. apply bool_decide_eq_true_2, elem_of_app. by left. }
  induction (rs_files t) as [|p l IH] using rev_ind; [done|].
  by rewrite foldl_app, IH; cbn; rewrite scan_step_skipped.
Qed.

Lemma scan_of_root_under_target_witness :
  scan_rust_source tree_under_target = ∅.
Proof.
  apply scan_of_root_under_target. unfold tree_under_target. cbn [root_parts].
  do 2 apply list_elem_of_further. apply list_elem_of_here.
Defined.

(** X3. A crate has a record exactly when a file of the walk that is not
    passed over lies under it; the record carries the name it is stored
    under and lists at least one file. *)
Theorem scan_record_keyed_by_crate (t : SourceTree) (crate : string) :
  (is_Some (scan_rust_source t !! crate) <->
   exists p, p ∈ rs_files t /\ skipped t p = false /\ crate_of p = crate) /\
  (forall info, scan_rust_source t !! crate = Some info ->
     crate_name info = crate /\ files info <> []).
Proof.
  split.
  - rewrite scan_lookup. destruct (crate_files t crate) as [|p fs] eqn:E.
    + split; [by intros [? ?]|]. intros (p & Hp & Hs & Hc).
      assert (p ∈ crate_files t crate) as Hin
        by (apply list_elem_of_filter; auto).
      rewrite E in Hin. by apply elem_of_nil in Hin.
    + split; [|by eauto]. intros _.
      assert (p ∈ crate_files t crate) as Hin by (rewrite E; apply list_elem_of_here).
      apply list_elem_of_filter in Hin as [[? ?] ?]. eauto.
  - intros info H. pose proof H as Hsome. rewrite scan_lookup in Hsome.
    rewrite (scan_record_closed_form _ _ _ H), foldl_file_step. cbn.
    split; [done|]. destruct (crate_files t crate); [done|]. by cbn.
Qed.

(** X4. The totals that [main] prints: every file of the walk that is not
    passed over is listed once, in one record, and the lines of the records
    add up to the lines of the files that were read. *)
Theorem scan_totals (t : SourceTree) :
  total_files (scan_rust_source t) = length (kept_files t) /\
  total_lines (scan_rust_source t) = sum_list_with lines_of (contents_of t (kept_files t)).
Proof.
  unfold total_files, total_lines. split.
  - rewrite (sum_records_scan (fun info => length (files info)) (fun _ => 1)).
    + induction (kept_files t) as [|p l IH]; [done|]. cbn. by rewrite IH.
    + intros c rel info. destruct c; cbn; rewrite length_app; cbn; lia.
    + done.
  - rewrite (sum_records_scan line_count
               (fun c => match c with Some c => lines_of c | None => 0 end)).
    + unfold contents_of. induction (kept_files t) as [|p l IH]; [done|].
      cbn. destruct (read_text t (path_str p)); cbn; lia.
    + intros c rel info. destruct c; cbn; unfold lines_of; lia.
    + done.
Qed.

(** ** The symbols the patterns capture *)

Section Engine.

Context {R : Type}.

Lemma lit_cont (l : string) (prev : option ascii) (s : string)
    (k : option ascii -> string -> option R) (res : R) :
  Re.lit l prev s k = Some res -> exists p rest, k p rest = Some res.
Proof.
  revert prev s. induction l as [|a l IH]; intros prev s H; cbn in H; [eauto|].
  destruct s as [|b s]; [done|]. destruct (Ascii.eqb a b); [eauto|done].
Qed.

(** A [+] that lets the rest of the pattern match has taken some characters
    of its class, and the rest of the pattern matched after them. *)
Lemma plus_cont (cls : ascii -> bool) (last : ascii) (s : string)
    (k : option ascii -> string -> option R) (res : R) :
  Re.plus cls last s k = Some res ->
  exists n p, k p (Str.drop n s) = Some res /\
              all_chars cls (Str.take n s) = true /\ n <= String.length s.
Proof.
  revert last. induction s as [|c s IH]; intros last H; cbn in H.
  - exists 0, (Some last). cbn. auto.
  - destruct (cls c) eqn:Ec.
    + destruct (Re.plus cls c s k) as [r'|] eqn:E.
      * injection H as ->. destruct (IH _ E) as (n & p & Hk & Ha & Hn).
        exists (S n), p. cbn. rewrite Ec. repeat split; [done|done|lia].
      * exists 0, (Some last). cbn. repeat split; [done|lia].
    + exists 0, (Some last). cbn. repeat split; [done|lia].
Qed.

(** A pattern without groups hands the groups on as it got them. *)
Lemma run_no_group (r : Re.regex) (Hr : no_group r = true)
    (prev : option ascii) (s : string) (caps : list string)
    (k : option ascii -> string -> list string -> option R) (res : R) :
  Re.run r prev s caps k = Some res -> exists p rest, k p rest caps = Some res.
Proof.
  revert prev s caps k. induction r as [l|cls|cls|r1 IH1|r1 IH1 r2 IH2|r1 IH1|cls];
    intros prev s caps k H; cbn in H, Hr.
  - apply lit_cont in H as (p & rest & H). eauto.
  - destruct s as [|c s]; [done|]. destruct (cls c); [eauto|done].
  - destruct s as [|c s]; [done|]. destruct (cls c); [|done].
    apply plus_cont in H as (n & p & H & _). eauto.
  - destruct (Re.run r1 prev s caps k) as [r'|] eqn:E; [|eauto].
    injection H as ->. by apply IH1 in E.
  - apply andb_true_iff in Hr as [H1 H2].
    apply (IH1 H1) in H as (p & rest & H). by apply (IH2 H2) in H.
  - done.
  - destruct prev as [c|]; [|done]. destruct (cls c); [eauto|done].
Qed.

Lemma length_drop_str (n : nat) (s : string) :
  n <= String.length s -> String.length (Str.drop n s) = String.length s - n.
Proof.
  revert s. induction n as [|n IH]; intros s H; [cbn; lia|].
  destruct s as [|c s]; cbn in *; [lia|]. apply IH. lia.
Qed.

Lemma run_ends_in_name (r : Re.regex) (Hr : ends_in_name r)
    (prev : option ascii) (s : string)
    (k : option ascii -> string -> list string -> option R) (res : R) :
  Re.run r prev s [] k = Some res ->
  exists p rest w, k p rest [w] = Some res /\ is_name w.
Proof.
  revert prev s k. induction r as [l|cls|cls|r1 IH1|r1 IH1 r2 IH2|r1 IH1|cls];
    intros prev s k H; cbn in Hr; try done.
  - destruct Hr as [H1 H2]. cbn in H.
    apply (run_no_group _ H1) in H as (p & rest & H). by apply (IH2 H2) in H.
  - destruct r1 as [| |cls| | | |]; try done. subst cls. cbn in H.
    destruct s as [|c s]; [done|]. destruct (Chr.is_word c) eqn:Ec; [|done].
    apply plus_cont in H as (n & p & H & Ha & Hn).
    exists p, (Str.drop n s), (String c (Str.take n s)).
    split; [|split; [done|by cbn; rewrite Ec, Ha]].
    rewrite <- H. cbn [app]. do 3 f_equal.
    rewrite length_drop_str by done.
    replace (String.length (String c s) - (String.length s - n)) with (S n)
      by (cbn; lia).
    reflexivity.
Qed.

End Engine.

Lemma match_at_name (r : Re.regex) (Hr : ends_in_name r)
    (prev : option ascii) (s : string) (caps : list string) (rest : string) :
  Re.match_at r prev s = Some (caps, rest) -> exists w, caps = [w] /\ is_name w.
Proof.
  unfold Re.match_at. intros H.
  apply (run_ends_in_name _ Hr) in H as (p & rest' & w & [= <- _] & Hw). eauto.
Qed.

Lemma finditer_names (r : Re.regex) (Hr : ends_in_name r)
    (prev : option ascii) (skip : nat) (s : string) :
  Forall (fun caps => is_name (Re.group1 caps)) (Re.finditer_from r prev skip s).
Proof.
  revert prev skip. induction s as [|c s IH]; intros prev skip; cbn; [constructor|].
  destruct skip as [|n]; [|apply IH].
  destruct (Re.match_at r prev (String c s)) as [[caps rest]|] eqn:E; [|apply IH].
  constructor; [|apply IH].
  apply (match_at_name _ Hr) in E as (w & -> & Hw). exact Hw.
Qed.

Lemma captures_names (r : Re.regex) (Hr : ends_in_name r) (content : string) :
  Forall is_name (captures r content).
Proof.
  unfold captures, Re.finditer. apply Forall_fmap. apply finditer_names, Hr.
Qed.

Lemma patterns_end_in_name :
  ends_in_name Patterns.pub_struct /\ ends_in_name Patterns.pub_fn /\
  ends_in_name Patterns.pub_enum /\ ends_in_name Patterns.pub_trait /\
  ends_in_name Patterns.impl_block.
Proof. cbn. repeat split; reflexivity. Qed.

(** X5. Every struct, function, enum, trait and implementation block the
    scanner records is a name: a non-empty run of word characters. *)
Theorem scanned_symbols_are_names (t : SourceTree) (crate : string) (info : CrateInfo)
    (Hscan : scan_rust_source t !! crate = Some info) :
  Forall is_name (structs info) /\ Forall is_name (functions info) /\
  Forall is_name (enums info) /\ Forall is_name (traits info) /\
  Forall is_name (impls info).
Proof.
  rewrite (scan_record_closed_form _ _ _ Hscan), foldl_file_step. cbn.
  destruct patterns_end_in_name as (H1 & H2 & H3 & H4 & H5).
  repeat split; apply Forall_bind, Forall_forall; intros c _;
    by apply captures_names.
Qed.

Lemma scanned_symbols_witness :
  Forall is_name (structs info_ex) /\ Forall is_name (functions info_ex) /\
  Forall is_name (enums info_ex) /\ Forall is_name (traits info_ex) /\
  Forall is_name (impls info_ex).
Proof.
  apply (scanned_symbols_are_names tree_ex "bb-models" info_ex).
  vm_compute. reflexivity.
Defined.

(** ** From the files to the index and to the matcher *)

Section Pipeline.

Lemma app_nil_r_str (s : string) : s +:+ "" = s.
Proof. induction s as [|c s IH]; [done|]. rewrite app_cons_str. by f_equal. Qed.

(** A part of a joined text lies in it as it is. *)
Lemma join_elem (sep c : string) (parts : list string) :
  c ∈ parts -> exists a b, Str.join sep parts = a +:+ c +:+ b.
Proof.
  induction parts as [|x parts IH]; intros Hin; [by apply elem_of_nil in Hin|].
  apply elem_of_cons in Hin as [->|Hin].
  - destruct parts as [|y parts].
    + exists "", "". cbn. by rewrite app_nil_l_str, app_nil_r_str.
    + exists "", (sep +:+ Str.join sep (y :: parts)). by rewrite app_nil_l_str.
  - destruct (IH Hin) as (a & b & Hab). destruct parts as [|y parts].
    + by apply elem_of_nil in Hin.
    + exists (x +:+ sep +:+ a), b.
      change (Str.join sep (x :: y :: parts))
        with (x +:+ sep +:+ Str.join sep (y :: parts)).
      rewrite Hab. by rewrite !app_assoc_str.
Qed.

Lemma omap_read_files (t : SourceTree) (fs : list (list string)) :
  omap (read_text t) (path_str <$> fs) = contents_of t fs.
Proof.
  unfold contents_of. induction fs as [|p fs IH]; [done|].
  cbn. by rewrite IH.
Qed.

(** The text of a crate in the index: the texts of its files that can be
    read, joined by newlines. *)
Lemma all_content_of_scan (t : SourceTree) (crate : string) (info : CrateInfo) :
  scan_rust_source t !! crate = Some info ->
  all_content (build_index (scan_rust_source t) (read_text t)) !! crate =
  Some (Str.join Str.nl (contents_of t (crate_files t crate))).
Proof.
  intros H. unfold build_index. cbn [all_content]. rewrite lookup_fmap, H. cbn.
  rewrite (scan_record_closed_form _ _ _ H), foldl_file_step. cbn.
  by rewrite omap_read_files.
Qed.

Lemma contains_in_crate_content (t : SourceTree) (p : list string) (c x : string) :
  p ∈ rs_files t -> skipped t p = false ->
  read_text t (path_str p) = Some c ->
  (x in_str c) = true ->
  (x in_str get_content (all_content (build_index (scan_rust_source t) (read_text t)))
             (crate_of p)) = true.
Proof.
  intros Hfile Hkept Hread Hx.
  assert (p ∈ crate_files t (crate_of p)) as Hin
    by (apply list_elem_of_filter; auto).
  destruct (scan_rust_source t !! crate_of p) as [info|] eqn:E.
  2:{ rewrite scan_lookup in E. destruct (crate_files t (crate_of p)); [|done].
      by apply elem_of_nil in Hin. }
  unfold get_content. rewrite (all_content_of_scan _ _ _ E). cbn.
  assert (c ∈ contents_of t (crate_files t (crate_of p))) as Hc.
  { unfold contents_of. apply list_elem_of_omap. by exists p. }
  destruct (join_elem Str.nl c _ Hc) as (a & b & ->).
  destruct (contains_inv _ _ Hx) as (u & v & ->).
  rewrite !app_assoc_str, <- (app_assoc_str a u). apply contains_intro.
Qed.

Lemma split1_without_sep (sep : ascii) (s : string) :
  (Str.of_char sep in_str s) = false -> snd (Str.split1 sep s) = None.
Proof.
  induction s as [|c s IH]; [done|]. cbn.
  destruct (Ascii.eqb_spec sep c) as [->|Hne].
  - by rewrite Ascii.eqb_refl.
  - rewrite (proj2 (Ascii.eqb_neq c sep)) by congruence.
    cbn. intros H. specialize (IH H).
    by destruct (Str.split1 sep s).
Qed.

End Pipeline.

(** X6. Whatever occurs in a file that is scanned and can be read occurs in
    the text the index holds for the crate of the file, so that a matcher
    that looks for it there finds it. *)
Theorem file_text_in_crate_content (t : SourceTree) (p : list string) (c x : string)
    (Hfile : p ∈ rs_files t) (Hkept : skipped t p = false)
    (Hread : read_text t (path_str p) = Some c)
    (Hx : (x in_str c) = true) :
  (x in_str get_content (all_content (build_index (scan_rust_source t) (read_text t)))
             (crate_of p)) = true.
Proof. exact (contains_in_crate_content t p c x Hfile Hkept Hread Hx). Qed.

Lemma file_text_in_crate_content_witness :
  ("impl Chat" in_str
     get_content (all_content (build_index (scan_rust_source tree_ex) (read_text tree_ex)))
       (crate_of ["bb-models"; "src"; "chat.rs"])) = true.
Proof.
  apply (file_text_in_crate_content tree_ex ["bb-models"; "src"; "chat.rs"]
           ("pub struct Chat { }" +:+ Str.nl +:+ "impl Chat { pub fn new() { } }")).
  - apply list_elem_of_here.
  - reflexivity.
  - reflexivity.
  - reflexivity.
Defined.

(** X7. Scanner, index and matcher together: a data-base model entry whose
    type and member both occur in one readable file of the crate [bb-models]
    ends implemented, with the symbol [Type::member]. *)
Theorem db_model_found_in_file (t : SourceTree) (p : list string) (c : string)
    (feat : Feature)
    (Hcat : category feat = "DB Models")
    (Hfile : p ∈ rs_files t) (Hkept : skipped t p = false)
    (Hcrate : crate_of p = "bb-models")
    (Hread : read_text t (path_str p) = Some c)
    (Htype : (subcategory feat in_str c) = true)
    (Hmember : (member_of (name feat) in_str c) = true) :
  let r := _match_single_feature feat
             (build_index (scan_rust_source t) (read_text t)) in
  status r = implemented /\
  rust_symbol r = subcategory feat +:+ "::" +:+ member_of (name feat).
Proof.
  cbv zeta. unfold _match_single_feature. rewrite Hcat. cbv beta iota.
  change (String.eqb "DB Models" "API Endpoints") with false.
  change (String.eqb "DB Models" "Socket Events") with false.
  change (String.eqb "DB Models" "DB Models") with true. cbv iota.
  unfold _match_db_model. cbv zeta.
  pose proof (contains_in_crate_content t p c _ Hfile Hkept Hread Htype) as H1.
  pose proof (contains_in_crate_content t p c _ Hfile Hkept Hread Hmember) as H2.
  rewrite Hcrate in H1, H2. rewrite H1, H2, orb_true_r. by cbn.
Qed.

Lemma db_model_found_in_file_witness :
  let r := _match_single_feature (db_model_entry "Chat" "new")
             (build_index (scan_rust_source tree_ex) (read_text tree_ex)) in
  status r = implemented /\
  rust_symbol r = subcategory (db_model_entry "Chat" "new") +:+ "::" +:+
                  member_of (name (db_model_entry "Chat" "new")).
Proof.
  apply (db_model_found_in_file tree_ex ["bb-models"; "src"; "chat.rs"]
           ("pub struct Chat { }" +:+ Str.nl +:+ "impl Chat { pub fn new() { } }")
           (db_model_entry "Chat" "new")).
  - reflexivity.
  - apply list_elem_of_here.
  - reflexivity.
  - reflexivity.
  - reflexivity.
  - reflexivity.
  - reflexivity.
Defined.

(** X8. An entry of the API category whose name holds no blank (no method
    before the path) is left exactly as it was, whatever the texts. *)
Theorem api_entry_without_space_untouched (feat : Feature)
    (content : gmap string string)
    (Hname : (" " in_str name feat) = false) :
  _match_api_endpoint feat content = feat.
Proof.
  unfold _match_api_endpoint. cbv zeta.
  pose proof (split1_without_sep " " (name feat) Hname) as H.
  destruct (Str.split1 " " (name feat)) as [m [p|]]; [discriminate|done].
Qed.

Lemma api_entry_without_space_witness :
  _match_api_endpoint bare_route_entry (all_content ix_ping) = bare_route_entry.
Proof. apply api_entry_without_space_untouched. reflexivity. Defined.

(** ** The derived settings name *)

Section Snake.

Lemma to_lower_not_upper (c : ascii) : Chr.is_upper (Chr.to_lower c) = false.
Proof.
  unfold Chr.to_lower. destruct (Chr.is_upper c) eqn:E; [|done].
  revert E. unfold Chr.is_upper, Chr.between, Chr.code.
  intros [H1 H2]%andb_true_iff. apply Nat.leb_le in H1, H2.
  rewrite nat_ascii_embedding by lia.
  apply andb_false_iff. right. apply Nat.leb_gt. lia.
Qed.

Lemma no_upper_lower (s : string) : no_upper (Str.lower s) = true.
Proof.
  unfold no_upper. induction s as [|c s IH]; [done|]. cbn.
  by rewrite to_lower_not_upper, IH.
Qed.

Lemma insert_separators_no_upper (prev : option ascii) (s : string) :
  no_upper s = true -> insert_separators prev s = s.
Proof.
  unfold no_upper. revert prev. induction s as [|c s IH]; intros prev; [done|]. cbn.
  intros [Hc Hs]%andb_true_iff. apply negb_true_iff in Hc.
  rewrite Hc, andb_false_r. by rewrite IH.
Qed.

Lemma lower_no_upper (s : string) : no_upper s = true -> Str.lower s = s.
Proof.
  unfold no_upper. induction s as [|c s IH]; [done|]. cbn.
  intros [Hc Hs]%andb_true_iff. apply negb_true_iff in Hc.
  unfold Chr.to_lower. rewrite Hc. by rewrite IH.
Qed.

End Snake.

(** X9. The derived form of a settings name has no uppercase letter; deriving
    it again changes nothing; and a name without uppercase letters is its own
    derived form, so that for such a name the matcher looks for the name
    alone. *)
Theorem snake_of_keeps_lower_case_names (n : string) :
  no_upper (snake_of n) = true /\
  snake_of (snake_of n) = snake_of n /\
  (no_upper n = true -> snake_of n = n).
Proof.
  assert (forall s, no_upper s = true -> snake_of s = s) as H.
  { intros s Hs. rewrite snake_of_derived_variant. unfold derived_variant.
    rewrite insert_separators_no_upper by done. by apply lower_no_upper. }
  assert (no_upper (snake_of n) = true) as Hn.
  { rewrite snake_of_derived_variant. apply no_upper_lower. }
  split; [done|]. split; [by apply H|apply H].
Qed.

(** ** The grouping of the reports *)

Section Grouping.

Import Report.

Lemma elem_of_first_seen (x : string) (l : list string) : x ∈ first_seen l <-> x ∈ l.
Proof.
  induction l as [|y l IH]; [done|]. cbn [first_seen].
  rewrite !elem_of_cons, list_elem_of_filter, IH.
  destruct (decide (x = y)); intuition congruence.
Qed.

Lemma first_seen_snoc (l : list string) (x : string) :
  first_seen (l ++ [x]) =
  if bool_decide (x ∈ l) then first_seen l else first_seen l ++ [x].
Proof.
  induction l as [|y l IH]; [done|].
  cbn [app first_seen]. rewrite IH.
  destruct (decide (x = y)) as [->|Hne].
  - rewrite (bool_decide_eq_true_2 (y ∈ y :: l)) by apply list_elem_of_here.
    case_bool_decide; [done|].
    rewrite filter_app, filter_cons_False by (intros ?; done).
    by rewrite filter_nil, app_nil_r.
  - rewrite (bool_decide_ext (x ∈ y :: l) (x ∈ l)).
    2:{ rewrite elem_of_cons. intuition congruence. }
    case_bool_decide; [done|].
    rewrite filter_app, filter_cons_True by done. by rewrite filter_nil.
Qed.

Lemma group_keys_first_seen (features : list Feature) :
  (group_by_category features).*1 = first_seen (category <$> features).
Proof.
  unfold group_by_category.
  assert (forall d seen, d.*1 = first_seen (category <$> seen) ->
            (foldl (fun d f => setdefault_append (category f) f d) d features).*1 =
            first_seen (category <$> (seen ++ features))) as H.
  { induction features as [|f features IH]; intros d seen Hd.
    - by rewrite app_nil_r.
    - cbn [foldl]. rewrite (cons_middle f seen features), app_assoc.
      apply IH. rewrite setdefault_append_keys, fmap_app.
      change (category <$> [f]) with [category f].
      rewrite first_seen_snoc, Hd.
      rewrite (bool_decide_ext _ _ (elem_of_first_seen (category f) (category <$> seen))).
      by destruct (bool_decide _). }
  by apply (H [] []).
Qed.

Lemma grouped_as_map (d : list (string * list Feature)) (seen : list Feature) :
  grouped d seen ->
  d = (fun k => (k, filter (fun f => category f = k) seen)) <$> d.*1.
Proof.
  intros (_ & Hlists & _). induction d as [|[k l] d IH]; [done|].
  cbn. f_equal.
  - f_equal. apply Hlists, list_elem_of_here.
  - apply IH. intros k2 l2 Hin. by apply Hlists, list_elem_of_further.
Qed.

Lemma count_status_sum (st : Status) (l : list Feature) :
  count_status st l =
  sum_list_with (fun f => if bool_decide (status f = st) then 1 else 0) l.
Proof.
  unfold count_status. induction l as [|f l IH]; [done|]. cbn.
  destruct (bool_decide (status f = st)); cbn; lia.
Qed.

Lemma sum_over_keys_cons (g : Feature -> nat) (keys : list string)
    (f : Feature) (fs : list Feature) :
  NoDup keys ->
  sum_list_with (fun k => sum_list_with g (filter (fun f => category f = k) (f :: fs))) keys =
  (if bool_decide (category f ∈ keys) then g f else 0) +
  sum_list_with (fun k => sum_list_with g (filter (fun f => category f = k) fs)) keys.
Proof.
  induction keys as [|k keys IH]; intros Hnd; [done|].
  apply NoDup_cons in Hnd as [Hnk Hnd]. cbn [sum_list_with]. rewrite (IH Hnd).
  destruct (decide (category f = k)) as [E|E].
  - rewrite filter_cons_True by done. cbn [sum_list_with].
    rewrite (bool_decide_eq_true_2 (category f ∈ k :: keys))
      by (rewrite E; apply list_elem_of_here).
    rewrite (bool_decide_eq_false_2 (category f ∈ keys)) by (by rewrite E).
    lia.
  - rewrite filter_cons_False by done.
    rewrite (bool_decide_ext (category f ∈ k :: keys) (category f ∈ keys))
      by (rewrite elem_of_cons; intuition congruence).
    lia.
Qed.

(** The filters by the keys split a sum over the entries, when the keys are
    distinct and every entry has its category among them. *)
Lemma sum_over_keys (g : Feature -> nat) (keys : list string) (fs : list Feature) :
  NoDup keys -> (forall f, f ∈ fs -> category f ∈ keys) ->
  sum_list_with (fun k => sum_list_with g (filter (fun f => category f = k) fs)) keys =
  sum_list_with g fs.
Proof.
  intros Hnd. induction fs as [|f fs IH]; intros Hin.
  - clear. induction keys as [|k keys IHk]; [done|]. cbn. exact IHk.
  - rewrite sum_over_keys_cons by done.
    rewrite bool_decide_eq_true_2 by (apply Hin, list_elem_of_here).
    rewrite IH by (intros; by apply Hin, list_elem_of_further). reflexivity.
Qed.

Lemma sum_with_fmap {A B : Type} (g : B -> nat) (h : A -> B) (l : list A) :
  sum_list_with g (h <$> l) = sum_list_with (fun x => g (h x)) l.
Proof. induction l as [|x l IH]; [done|]. cbn. by rewrite IH. Qed.

Lemma sum_with_ext {A : Type} (g g' : A -> nat) (l : list A) :
  (forall x, g x = g' x) -> sum_list_with g l = sum_list_with g' l.
Proof. intros H. induction l as [|x l IH]; [done|]. cbn. by rewrite H, IH. Qed.

Lemma length_sum {A : Type} (l : list A) : length l = sum_list_with (fun _ => 1) l.
Proof. induction l as [|x l IH]; [done|]. cbn. by rewrite IH. Qed.

End Grouping.

(** X10. The grouping of the reports keeps the order of the catalog: the
    categories come in the order of their first entry, not sorted, and each
    comes with all its entries, in their order in the catalog. *)
Theorem group_by_category_in_first_seen_order (features : list Feature) :
  Report.group_by_category features =
  (fun k => (k, filter (fun f => category f = k) features)) <$>
    first_seen (category <$> features).
Proof.
  rewrite <- group_keys_first_seen.
  apply grouped_as_map, group_by_category_grouped.
Qed.

(** X11. The categories share out the catalog: for every status the counts of
    the categories add up to the count of the whole list, and the sizes of
    the categories add up to its length. *)
Theorem category_counts_add_up (st : Status) (features : list Feature) :
  sum_list_with (fun kv => Report.count_status st (snd kv))
    (Report.group_by_category features) = Report.count_status st features /\
  sum_list_with (fun kv => length (snd kv))
    (Report.group_by_category features) = length features.
Proof.
  destruct (group_by_category_grouped features) as (Hnd & Hlists & Hkeys).
  pose proof (grouped_as_map _ _ (group_by_category_grouped features)) as Hmap.
  set (keys := (Report.group_by_category features).*1) in *.
  rewrite Hmap, !sum_with_fmap. cbn [snd]. split.
  - rewrite count_status_sum, <- (sum_over_keys _ _ features Hnd Hkeys).
    apply sum_with_ext. intros k. apply count_status_sum.
  - rewrite (length_sum features), <- (sum_over_keys _ _ features Hnd Hkeys).
    apply sum_with_ext. intros k. apply length_sum.
Qed.
